(** * fastjs-next request pipeline: a shallow embedding

    This development embeds the request core of fastjs-next
    ([packages/core/src/request/lib.ts] and
    [packages/core/src/request/core.ts]) and proves properties of the
    path-parameter resolver, the hook runner, the callback dispatcher,
    the debounce logic and the failure routing.

    Conventions of the embedding:
    - a JavaScript object used as a dictionary is a [gmap string JsValue];
      only own properties are modelled (no prototype chain);
    - objects shared by reference (the payload [request.data], an object
      valued [config.query]) live in a store indexed by locations, so that
      aliasing between [data.query] and [request.data] is kept;
    - user supplied functions (hooks, callbacks, the [failed] handler) are
      opaque: a hook is a boolean function of its arguments, a callback is
      identified by a number, and every call the pipeline makes is
      appended to an event trace. User functions are assumed not to
      re-enter the pipeline nor to throw. *)

From Stdlib Require Import Ascii String.
From stdpp Require Import gmap strings list fin_maps pretty.
From Equations Require Import Equations.
From Equations.Prop Require Import Logic.

Local Open Scope string_scope.
Local Open Scope list_scope.
Local Open Scope Z_scope.

(** ** Strings: [split], [join], [replace], [includes] *)

(** [s.split(c)] for a one character separator. *)
Fixpoint split_on (c : ascii) (s : string) : list string :=
  match s with
  | EmptyString => [EmptyString]
  | String a s' =>
      if Ascii.eqb a c then EmptyString :: split_on c s'
      else match split_on c s' with
           | [] => [String a EmptyString]
           | x :: xs => String a x :: xs
           end
  end.

(** [l.join(sep)] on a list of strings. *)
Definition join (sep : string) (l : list string) : string :=
  String.concat sep l.

(** [s.replace(c, "")] with a string pattern: only the first occurrence
    is removed. *)
Fixpoint remove_first (c : ascii) (s : string) : string :=
  match s with
  | EmptyString => EmptyString
  | String a s' => if Ascii.eqb a c then s' else String a (remove_first c s')
  end.

(** [/^:/.test(s)] *)
Definition starts_with_colon (s : string) : bool :=
  match s with
  | String a _ => Ascii.eqb a ":"%char
  | EmptyString => false
  end.

(** [s.includes(c)] *)
Fixpoint includes (c : ascii) (s : string) : bool :=
  match s with
  | EmptyString => false
  | String a s' => Ascii.eqb a c || includes c s'
  end.

(** ** JavaScript values held by a payload *)

(** Numbers are the integer valued ones (within the safe range, where
    [String(n)] is the decimal numeral). A plain object is kept without
    its content: it is truthy and [String] of it is ["[object Object]"]. *)
#[warnings="-register-all"]
Inductive JsValue : Type :=
| JUndefined
| JNull
| JBool (b : bool)
| JNum (n : Z)
| JStr (s : string)
| JObject
| JArray (items : list JsValue).

(** [ToBoolean]: what [if (v)] and [a && b] test. *)
Definition truthy (v : JsValue) : bool :=
  match v with
  | JUndefined | JNull => false
  | JBool b => b
  | JNum n => negb (n =? 0)
  | JStr s => negb (String.eqb s "")
  | JObject | JArray _ => true
  end.

(** [ToString], as applied by [Array.prototype.join] and by
    [URLSearchParams] to the values they are given. An array is the join
    of its items with [,], where [null] and [undefined] items count as
    empty strings. *)
Fixpoint to_string (v : JsValue) : string :=
  match v with
  | JUndefined => "undefined"
  | JNull => "null"
  | JBool true => "true"
  | JBool false => "false"
  | JNum n => pretty n
  | JStr s => s
  | JObject => "[object Object]"
  | JArray items =>
      join ","
        (List.map (λ x, match x with
                        | JUndefined | JNull => ""
                        | _ => to_string x
                        end) items)
  end.

(** [obj[key]]: a missing own property reads as [undefined]. *)
Definition js_get (obj : gmap string JsValue) (key : string) : JsValue :=
  default JUndefined (obj !! key).

(** ** lib.ts *)

(** One step of the [map] callback of [transformPathParams]: it reads
    and mutates the captured [matchs] array and the [query] object. *)
Definition transformComponent (component : string)
    (st : list string * gmap string JsValue)
  : string * (list string * gmap string JsValue) :=
  let '(matchs, query) := st in
  let key := remove_first ":"%char component in
  if starts_with_colon component && truthy (js_get query key) then
    let data := js_get query key in
    (to_string data, (matchs ++ [key], delete key query))
  else (component, (matchs, query)).

(** [urlComponents.map(...)]: the callback runs on the components from
    left to right, threading the mutated state. *)
Fixpoint mapComponents (components : list string)
    (st : list string * gmap string JsValue)
  : list string * (list string * gmap string JsValue) :=
  match components with
  | [] => ([], st)
  | c :: cs =>
      let '(out, st1) := transformComponent c st in
      let '(outs, st2) := mapComponents cs st1 in
      (out :: outs, st2)
  end.

(** [transformPathParams(url, query)] returns [[url', matchs]]; the third
    component is the [query] object as the call leaves it. *)
Definition transformPathParams (url : string) (query : gmap string JsValue)
  : string * list string * gmap string JsValue :=
  let urlComponents := split_on "/"%char url in
  let '(outs, (matchs, query')) := mapComponents urlComponents ([], query) in
  (join "/" outs, matchs, query').

(** *** Objects shared by reference *)

(** The store of payload objects. [request.data], the object captured in
    [data.body] / [data.query] and an object valued [config.query] are
    locations of it. *)
Definition loc := nat.

Definition obj_at (h : gmap nat (gmap string JsValue)) (l : loc)
  : gmap string JsValue :=
  default ∅ (h !! l).

(** [query: string | RequestData | null] *)
Inductive Query : Type :=
| QNull
| QString (s : string)
| QObject (l : loc).

(** Own enumerable properties of a string primitive: one per index,
    holding the character at that index. *)
Definition string_props (s : string) : gmap string JsValue :=
  list_to_map
    (imap (λ i c, (pretty i, JStr (String c EmptyString)))
          (list_ascii_of_string s)).

(** The properties [Object.assign(target, query)] copies from [query]. *)
Definition own_props (h : gmap nat (gmap string JsValue)) (q : Query)
  : gmap string JsValue :=
  match q with
  | QNull => ∅
  | QString s => string_props s
  | QObject l => obj_at h l
  end.

(** [!query || Object.keys(query).length === 0] *)
Definition query_unusable (h : gmap nat (gmap string JsValue)) (q : Query)
  : bool :=
  match q with
  | QNull => true
  | QString s => String.eqb s "" || (String.length s =? 0)%nat
  | QObject l => (size (obj_at h l) =? 0)%nat
  end.

(** *** [URLSearchParams], as its list of name/value pairs *)

(** [urlSearchParams.set(key, value)]: the first pair named [key] takes
    the value, later ones are dropped; a new name is appended. *)
Fixpoint usp_set (key value : string) (l : list (string * string))
  : list (string * string) :=
  match l with
  | [] => [(key, value)]
  | (k, v) :: l' =>
      if String.eqb k key
      then (key, value) :: filter (λ p, p.1 ≠ key) l'
      else (k, v) :: usp_set key value l'
  end.

(** The body of the [forEach] in [queryToUrlParams]:
    [const [key, value] = query.split("=")], then [set(key, value)] where
    a missing [value] is converted to the string ["undefined"]. *)
Definition set_pair (usp : list (string * string)) (q : string)
  : list (string * string) :=
  match split_on "="%char q with
  | [] => usp
  | [key] => usp_set key "undefined" usp
  | key :: value :: _ => usp_set key value usp
  end.

(** [query.slice(1)] when [query[0] === "?"] *)
Definition strip_question (query : string) : string :=
  match query with
  | String a rest => if Ascii.eqb a "?"%char then rest else query
  | EmptyString => query
  end.

(** [queryToUrlParams(query)]. For an object, [new URLSearchParams(query)]
    has one pair per own property, the value converted to a string; the
    pairs are listed in the order of [map_to_list] (property insertion
    order is not modelled). *)
Definition queryToUrlParams (h : gmap nat (gmap string JsValue)) (query : Query)
  : list (string * string) :=
  match query with
  | QString s => foldl set_pair [] (split_on "&"%char (strip_question s))
  | QObject l => (λ kv, (kv.1, to_string kv.2)) <$> map_to_list (obj_at h l)
  | QNull => []
  end.

(** The JSON values [JSON.parse] returns; a number keeps its lexeme. *)
#[warnings="-register-all"]
Inductive Json : Type :=
| JsonNull
| JsonBool (b : bool)
| JsonNumber (lexeme : string)
| JsonString (s : string)
| JsonArray (items : list Json)
| JsonObject (members : list (string * Json)).

(** What [parse] returns: the decoded JSON value or the text itself. *)
Inductive Body : Type :=
| Decoded (j : Json)
| Text (s : string).

Section Lib.

(** Platform functions: [URLSearchParams.prototype.toString] and
    [JSON.parse], where [None] stands for the [SyntaxError] it throws. *)
Variable usp_toString : list (string * string) → string.
Variable JSON_parse : string → option Json.

(** [addQuery(url, query, body)]; [body] is [None] for [null] and for an
    omitted argument. [Object.assign(body || {}, query)] writes into the
    [body] object when there is one and into a fresh object otherwise;
    the [console.log(body)] diagnostic is left out. *)
Definition addQuery (url : string) (query : Query) (body : option loc)
    (h : gmap nat (gmap string JsValue))
  : (string * list string) * gmap nat (gmap string JsValue) :=
  let target := match body with Some b => obj_at h b | None => ∅ end in
  let merged := own_props h query ∪ target in
  let '(url1, paramMatches, merged') := transformPathParams url merged in
  let h1 := match body with Some b => <[b := merged']> h | None => h end in
  if query_unusable h1 query then ((url1, []), h1)
  else
    let urlSearchParams := queryToUrlParams h1 query in
    let url2 :=
      if (0 <? length urlSearchParams)%nat
      then url1 +:+ (if includes "?"%char url1 then "&" else "?")
                +:+ usp_toString urlSearchParams
      else url1 in
    ((url2, paramMatches), h1).

(** [parse(data)]: [try { return JSON.parse(data) } catch { return data }] *)
Definition parse (data : string) : Body :=
  match JSON_parse data with
  | Some j => Decoded j
  | None => Text data
  end.

End Lib.

(** ** core.ts: the data of a request *)

(** Modelled from the spec: the type [RequestMethod] of [def.ts], which is
    not part of the sources at hand ("one of GET/HEAD/OPTIONS/POST/PUT/
    PATCH/DELETE"). Every method is a non-empty string, hence truthy. *)
Inductive RequestMethod : Type :=
| GET | HEAD | OPTIONS | POST | PUT | PATCH | DELETE.

Global Instance RequestMethod_eq_dec : EqDecision RequestMethod.
Proof. solve_decision. Defined.

(** [RequestHookKey]: the lifecycle points ["before"], ["init"],
    ["success"] and ["failed"]. *)
Inductive RequestHookKey : Type :=
| before | init | success | failed.

Global Instance RequestHookKey_eq_dec : EqDecision RequestHookKey.
Proof. solve_decision. Defined.

Definition hook_name (hook : RequestHookKey) : string :=
  match hook with
  | before => "before"
  | init => "init"
  | success => "success"
  | failed => "failed"
  end.

(** The transport level request built by [new Request(url, {...})]. The
    JSON text of the body is represented by the payload it serialises. *)
Record Request : Type := mkRequest {
  rq_url : string;
  rq_method : RequestMethod;
  rq_headers : list (string * string);
  rq_body : option (gmap string JsValue)
}.

(** The platform [Response], as far as the pipeline looks at it. *)
Record Response : Type := mkResponse {
  resp_status : Z;
  resp_headers : list (string * string);
  resp_text : string
}.

(** [RequestReturn]; the [request] field is the descriptor itself and
    [resend] is the closure [() => sendRequest(request, method)], kept as
    the method it captured. *)
Record RequestReturn : Type := mkRequestReturn {
  rr_headers : list (string * string);
  rr_headersObj : gmap string string;
  rr_response : Response;
  rr_data : Body;
  rr_status : Z;
  rr_resend : RequestMethod
}.

(** The [error] of a [FailedParams]: an [Error] with its message, or the
    status code of a rejected response. *)
Inductive FailError : Type :=
| ErrError (message : string)
| ErrStatus (status : Z).

(** [FailedParams]; the [request] field is the descriptor itself. *)
Record FailedParams : Type := mkFailedParams {
  fp_error : FailError;
  fp_intercept : bool;
  fp_hook : option RequestHookKey;
  fp_response : option RequestReturn
}.

(** What a hook or a callback sees of the descriptor it is handed. *)
Record RequestView : Type := mkRequestView {
  rv_url : string;
  rv_data : gmap string JsValue;
  rv_request : option Request
}.

(** The arguments the pipeline passes to user functions. *)
Inductive Param : Type :=
| PRequest (v : RequestView)
| PReturn (r : RequestReturn)
| PStatus (status : Z)
| PError (message : string)
| PText (data : string)
| PFailed (f : FailedParams).

(** A hook: an identity and the boolean it answers. *)
Record RequestHook : Type := mkHook {
  hook_id : nat;
  hook_fn : list Param → bool
}.

(** [RequestHook[] | RequestHook | undefined] *)
Inductive HookSet : Type :=
| NoHooks
| OneHook (h : RequestHook)
| ManyHooks (hs : list RequestHook).

Record RequestHooks : Type := mkHooks {
  hooks_before : HookSet;
  hooks_init : HookSet;
  hooks_success : HookSet;
  hooks_failed : HookSet
}.

(** [CallbackObject]: [{ func, once, method }] *)
Record CallbackObject : Type := mkCallback {
  func : nat;
  once : bool;
  method : option RequestMethod
}.

Global Instance CallbackObject_eq_dec : EqDecision CallbackObject.
Proof. solve_decision. Defined.

Record Callbacks : Type := mkCallbacks {
  cb_success : list CallbackObject;
  cb_failed : list CallbackObject;
  cb_finally : list CallbackObject
}.

(** [request.config], without the [failed] handler (an opaque function,
    whose calls are recorded in the trace). *)
Record Config : Type := mkConfig {
  cfg_headers : list (string * string);
  cfg_query : Query;
  cfg_wait : option Z;
  cfg_hooks : RequestHooks
}.

(** The calls the pipeline makes, in the order it makes them. *)
Inductive Event : Type :=
| EvHook (id : nat) (params : list Param) (result : bool)
| EvFailedHandler (f : FailedParams)
| EvCallback (id : nat) (params : list Param)
| EvFetch (r : Request)
| EvSetTimeout (handle : nat) (delay : Z)
| EvClearTimeout (handle : nat).

(** The variables a call of [sendRequest] closes over: [method], [url] and
    the [data] object [{ body, query }]. *)
Record Frame : Type := mkFrame {
  fr_method : RequestMethod;
  fr_url : string;
  fr_body : option loc;
  fr_query : Query
}.

(** A pending timer: the handle [setTimeout] returned, the time at which
    it is due and the frame of the call that scheduled it. *)
Record Timer : Type := mkTimer {
  tm_handle : nat;
  tm_due : Z;
  tm_frame : Frame
}.

(** The descriptor [FastjsRequest]. [req_wait] is [request.wait], the
    handle of the pending debounce timer or [null]. *)
Record FastjsRequest : Type := mkFastjsRequest {
  req_url : string;
  req_data : loc;
  req_config : Config;
  req_callback : Callbacks;
  req_wait : option nat;
  req_request : option Request
}.

(** One descriptor and what surrounds it: the object store, the timers of
    the event loop, the clock and the trace. *)
Record World : Type := mkWorld {
  store : gmap nat (gmap string JsValue);
  request : FastjsRequest;
  timers : list Timer;
  now : Z;
  next_handle : nat;
  trace : list Event
}.


(** ** core.ts: the functions *)

(** *** matchCallback *)

(** [call.method && call.method !== method]: the entry carries a method
    filter and the filter is not the method of the dispatch ([None] is a
    dispatch with [null]). *)
Definition skipped (call : CallbackObject) (m : option RequestMethod) : bool :=
  match method call with
  | Some cm => negb (bool_decide (Some cm = m))
  | None => false
  end.

Definition prepend (ev : Event) (r : list CallbackObject * list Event)
  : list CallbackObject * list Event :=
  (r.1, ev :: r.2).

(** The [for] loop of [matchCallback] from index [i] on: the array is
    read at [i]; a skipped entry moves on; otherwise [call.func(...params)]
    is recorded and, for a [once] entry, [callback.splice(i, 1), i--]
    followed by the loop's [i++] leaves [i] where it is. The result is
    the array as the loop leaves it and the calls made. *)
Equations? matchCallbackLoop (callback : list CallbackObject)
    (params : list Param) (m : option RequestMethod) (i : nat)
  : list CallbackObject * list Event
  by wf (length callback - i)%nat lt :=
  matchCallbackLoop callback params m i with inspect (callback !! i) := {
    | exist _ None _ := (callback, []);
    | exist _ (Some call) Hi :=
        if skipped call m then matchCallbackLoop callback params m (S i)
        else if once call
             then prepend (EvCallback (func call) params)
                    (matchCallbackLoop (delete i callback) params m i)
             else prepend (EvCallback (func call) params)
                    (matchCallbackLoop callback params m (S i))
  }.
Proof.
  all: assert (i < length callback)%nat by (eapply lookup_lt_Some; eauto).
  - lia.
  - rewrite length_delete by (apply lookup_lt_is_Some; lia). lia.
  - lia.
Qed.

(** [matchCallback(callback, params, method)] *)
Definition matchCallback (callback : list CallbackObject)
    (params : list Param) (m : option RequestMethod)
  : list CallbackObject * list Event :=
  matchCallbackLoop callback params m 0%nat.


(** *** State updates on the world *)

Definition emit (evs : list Event) (w : World) : World :=
  mkWorld (store w) (request w) (timers w) (now w) (next_handle w)
          (trace w ++ evs).

Definition set_store (h : gmap nat (gmap string JsValue)) (w : World) : World :=
  mkWorld h (request w) (timers w) (now w) (next_handle w) (trace w).

Definition set_request (r : FastjsRequest) (w : World) : World :=
  mkWorld (store w) r (timers w) (now w) (next_handle w) (trace w).

Definition set_callback (c : Callbacks) (r : FastjsRequest) : FastjsRequest :=
  mkFastjsRequest (req_url r) (req_data r) (req_config r) c
                  (req_wait r) (req_request r).

Definition set_wait (h : option nat) (r : FastjsRequest) : FastjsRequest :=
  mkFastjsRequest (req_url r) (req_data r) (req_config r) (req_callback r)
                  h (req_request r).

Definition set_built (q : Request) (r : FastjsRequest) : FastjsRequest :=
  mkFastjsRequest (req_url r) (req_data r) (req_config r) (req_callback r)
                  (req_wait r) (Some q).

(** The descriptor as a user function observes it when it is called. *)
Definition view (w : World) : RequestView :=
  mkRequestView (req_url (request w))
                (obj_at (store w) (req_data (request w)))
                (req_request (request w)).

(** The three callback lists of [request.callback]. *)
Inductive CallbackKey : Type := on_success | on_failed | on_finally.

Definition get_callbacks (k : CallbackKey) (c : Callbacks)
  : list CallbackObject :=
  match k with
  | on_success => cb_success c
  | on_failed => cb_failed c
  | on_finally => cb_finally c
  end.

Definition put_callbacks (k : CallbackKey) (l : list CallbackObject)
    (c : Callbacks) : Callbacks :=
  match k with
  | on_success => mkCallbacks l (cb_failed c) (cb_finally c)
  | on_failed => mkCallbacks (cb_success c) l (cb_finally c)
  | on_finally => mkCallbacks (cb_success c) (cb_failed c) l
  end.

(** [matchCallback(request.callback.<k>, params, method)]: the list is
    spliced in place and the calls go to the trace. *)
Definition dispatch (k : CallbackKey) (params : list Param)
    (m : option RequestMethod) (w : World) : World :=
  let r := request w in
  let '(l, evs) := matchCallback (get_callbacks k (req_callback r)) params m in
  emit evs (set_request (set_callback (put_callbacks k l (req_callback r)) r) w).

(** *** runHooks *)

Section Core.

Variable usp_toString : list (string * string) → string.
Variable JSON_parse : string → option Json.

(** The process wide [globalConfig] of [config.ts]:
    [handler.handleResponse], [handler.responseCode] and [hooks.runAll]. *)
Variable handleResponse : Response → string.
Variable responseCode : Z → bool.
Variable runAll : bool.

(** The [for ... of] loop of [runHooks], entered with the current
    [result]: the answer and the hook calls made. *)
Fixpoint runHookList (hooks : list RequestHook) (params : list Param)
    (result : bool) : bool * list Event :=
  match hooks with
  | [] => (result, [])
  | hook :: rest =>
      let r := hook_fn hook params in
      let ev := EvHook (hook_id hook) params r in
      if negb r then
        if negb runAll then (false, [ev])
        else let '(res, evs) := runHookList rest params false in
             (res, ev :: evs)
      else let '(res, evs) := runHookList rest params result in
           (res, ev :: evs)
  end.

(** [runHooks(hooks, params)] *)
Definition runHooks (hooks : HookSet) (params : list Param)
  : bool * list Event :=
  match hooks with
  | NoHooks => (true, [])
  | OneHook h =>
      let r := hook_fn h params in
      (r, [EvHook (hook_id h) params r])
  | ManyHooks hs => runHookList hs params true
  end.

(** [runHooks] on the world: the calls go to the trace. *)
Definition run_hooks (hooks : HookSet) (params : list Param) (w : World)
  : bool * World :=
  let '(r, evs) := runHooks hooks params in
  (r, emit evs w).

(** *** hookFailed and handleBadResponse *)

(** [hookFailed(hook, request, response)] *)
Definition hookFailed (hook : RequestHookKey)
    (response : option RequestReturn) (w : World) : World :=
  let failedParams :=
    mkFailedParams
      (ErrError ("Request interrupted by " +:+ hook_name hook))
      true (Some hook) response in
  let w1 := emit [EvFailedHandler failedParams] w in
  let w2 := dispatch on_failed [PFailed failedParams] None w1 in
  dispatch on_finally [PRequest (view w2)] None w2.

(** [handleBadResponse(response, request, resend)]; the development
    warning is left out and [resend] is not used by the function. *)
Definition handleBadResponse (response : RequestReturn) (w : World)
  : World :=
  let status := rr_status response in
  let '(ok, w1) :=
    run_hooks (hooks_failed (cfg_hooks (req_config (request w))))
              [PStatus status; PRequest (view w)] w in
  if negb ok then hookFailed failed None w1
  else
    let failedParams :=
      mkFailedParams (ErrStatus status) false None (Some response) in
    let w2 := emit [EvFailedHandler failedParams] w1 in
    let w3 := dispatch on_failed [PFailed failedParams] None w2 in
    dispatch on_finally [PRequest (view w3)] None w3.

(** *** The event loop: [setTimeout] and [clearTimeout] *)

Definition set_timers (l : list Timer) (w : World) : World :=
  mkWorld (store w) (request w) l (now w) (next_handle w) (trace w).

(** [clearTimeout(handle)]: the timer, if still pending, is dropped. *)
Definition clearTimeout (handle : nat) (w : World) : World :=
  emit [EvClearTimeout handle]
       (set_timers (filter (λ t, tm_handle t ≠ handle) (timers w)) w).

(** [setTimeout(callback, delay)]: a new positive handle; the timer is
    due [delay] milliseconds from now (a negative delay counts as 0). *)
Definition setTimeout (f : Frame) (delay : Z) (w : World) : nat * World :=
  let handle := S (next_handle w) in
  let t := mkTimer handle (now w + Z.max 0 delay) f in
  (handle,
   mkWorld (store w) (request w) (timers w ++ [t]) (now w) handle
           (trace w ++ [EvSetTimeout handle delay])).

(** *** sendRequest and passthrough *)

(** [isBodyAllowed(method)] *)
Definition isBodyAllowed (m : RequestMethod) : bool :=
  negb (bool_decide (m ∈ [GET; HEAD; OPTIONS])).

(** The synchronous part of [passthrough()], up to the call of [fetch].
    The development warning of [sendRequest] is left out. [lib.ts]
    returns the URL of [addQuery] paired with the consumed keys; the
    [Request] is built on the URL. *)
Definition passthrough (f : Frame) (w : World) : World :=
  let hooks := cfg_hooks (req_config (request w)) in
  let '(ok, w1) := run_hooks (hooks_before hooks) [PRequest (view w)] w in
  if negb ok then hookFailed before None w1
  else
    let l := req_data (request w1) in
    let '(url, pathParamMatches, d) :=
      transformPathParams (fr_url f) (obj_at (store w1) l) in
    let d' := foldl (λ o k, delete k o) d pathParamMatches in
    let w2 := set_store (<[l := d']> (store w1)) w1 in
    let '((url', _), h) := addQuery usp_toString url (fr_query f) None (store w2) in
    let w3 := set_store h w2 in
    let body :=
      match fr_body f with
      | Some b => Some (obj_at (store w3) b)
      | None => None
      end in
    let rq := mkRequest url' (fr_method f)
                        (cfg_headers (req_config (request w3))) body in
    let w4 := set_request (set_built rq (request w3)) w3 in
    let '(ok', w5) := run_hooks (hooks_init hooks) [PRequest (view w4)] w4 in
    if negb ok' then hookFailed init None w5
    else emit [EvFetch rq] w5.

(** The object literal [requestReturn] of the [then] handler, [data]
    being what [handleResponse] resolved to. [Object.fromEntries] keeps
    the last entry of a repeated name. *)
Definition requestReturn (f : Frame) (response : Response) (data : string)
  : RequestReturn :=
  mkRequestReturn (resp_headers response)
                  (list_to_map (reverse (resp_headers response)))
                  response (parse JSON_parse data)
                  (resp_status response) (fr_method f).

(** The [then] handler of the [fetch] promise. *)
Definition onFulfilled (f : Frame) (response : Response) (w : World)
  : World :=
  let hooks := cfg_hooks (req_config (request w)) in
  let data := handleResponse response in
  let requestReturn := requestReturn f response data in
  if negb (responseCode (resp_status response))
  then handleBadResponse requestReturn w
  else
    let '(ok, w1) :=
      run_hooks (hooks_success hooks)
                [PReturn requestReturn; PRequest (view w)] w in
    if negb ok then hookFailed success (Some requestReturn) w1
    else
      let w2 := dispatch on_success [PText data; PReturn requestReturn]
                         (Some (fr_method f)) w1 in
      dispatch on_finally [PRequest (view w2)] (Some (fr_method f)) w2.

(** The [catch] handler of the [fetch] promise; the development warning
    is left out. *)
Definition onRejected (f : Frame) (error : string) (w : World) : World :=
  let hooks := cfg_hooks (req_config (request w)) in
  let '(ok, w1) :=
    run_hooks (hooks_failed hooks) [PError error; PRequest (view w)] w in
  if negb ok then hookFailed failed None w1
  else
    let failedParams := mkFailedParams (ErrError error) false None None in
    let w2 := emit [EvFailedHandler failedParams] w1 in
    let w3 := dispatch on_failed [PFailed failedParams]
                       (Some (fr_method f)) w2 in
    dispatch on_finally [PRequest (view w3)] (Some (fr_method f)) w3.

(** The callback handed to [setTimeout]:
    [() => { passthrough(); request.wait = null; }] *)
Definition timerCallback (f : Frame) (w : World) : World :=
  let w1 := passthrough f w in
  set_request (set_wait None (request w1)) w1.

(** [if (request.config.wait)]: a number other than 0. *)
Definition wait_set (wait : option Z) : bool :=
  match wait with
  | Some n => negb (n =? 0)
  | None => false
  end.

(** [if (request.wait)]: a timer handle other than 0. *)
Definition handle_set (h : option nat) : bool :=
  match h with
  | Some n => negb (n =? 0)%nat
  | None => false
  end.

(** [sendRequest(request, method, url)] *)
Definition sendRequest (m : RequestMethod) (url : string) (w : World)
  : World :=
  let r := request w in
  let f :=
    mkFrame m url
      (if isBodyAllowed m then Some (req_data r) else None)
      (if isBodyAllowed m then cfg_query (req_config r)
       else QObject (req_data r)) in
  if wait_set (cfg_wait (req_config r)) then
    let w1 :=
      if handle_set (req_wait r)
      then clearTimeout (default 0%nat (req_wait r)) w
      else w in
    let '(handle, w2) :=
      setTimeout f (default 0 (cfg_wait (req_config r))) w1 in
    set_request (set_wait (Some handle) (request w2)) w2
  else passthrough f w.

(** *** Running the timers *)

(** The pending timer that is due first; among equal due times the one
    scheduled first. *)
Fixpoint earliest (l : list Timer) : option Timer :=
  match l with
  | [] => None
  | t :: l' =>
      match earliest l' with
      | Some u => if tm_due u <? tm_due t then Some u else Some t
      | None => Some t
      end
  end.

Definition set_now (t : Z) (w : World) : World :=
  mkWorld (store w) (request w) (timers w) t (next_handle w) (trace w).

(** Runs, in the order they are due, the timers due at [t] or before;
    at most [fuel] of them. *)
Fixpoint run_timers (fuel : nat) (t : Z) (w : World) : World :=
  match fuel with
  | O => w
  | S n =>
      match earliest (timers w) with
      | Some tm =>
          if tm_due tm <=? t then
            let w1 :=
              set_now (Z.max (now w) (tm_due tm))
                (set_timers
                   (filter (λ u, tm_handle u ≠ tm_handle tm) (timers w)) w) in
            run_timers n t (timerCallback (tm_frame tm) w1)
          else w
      | None => w
      end
  end.

(** Time passes until [t]: every timer due by then runs. A timer
    callback schedules no timer, so the number of pending timers is
    fuel enough. *)
Definition advance (t : Z) (w : World) : World :=
  let w1 := run_timers (length (timers w)) t w in
  set_now (Z.max (now w1) t) w1.

End Core.

(** ** Bursts of sends *)

(** One use of the descriptor by its caller: at the time [call_at], the
    payload is assigned to [request.data] and [sendRequest] is called
    with a method and a URL. *)
Record Call : Type := mkCall {
  call_at : Z;
  call_payload : gmap string JsValue;
  call_method : RequestMethod;
  call_url : string
}.

Definition set_data (l : loc) (r : FastjsRequest) : FastjsRequest :=
  mkFastjsRequest (req_url r) l (req_config r) (req_callback r)
                  (req_wait r) (req_request r).

(** The caller's assignment [request.data = payload]: the payload is a
    new object of the store. *)
Definition assign_data (payload : gmap string JsValue) (w : World) : World :=
  let l := fresh (dom (store w)) in
  set_request (set_data l (request w))
              (set_store (<[l := payload]> (store w)) w).

(** The frame [sendRequest] builds for a method and a URL. *)
Definition frame_of (m : RequestMethod) (url : string) (r : FastjsRequest)
  : Frame :=
  mkFrame m url
    (if isBodyAllowed m then Some (req_data r) else None)
    (if isBodyAllowed m then cfg_query (req_config r)
     else QObject (req_data r)).

Section Bursts.

Variable usp_toString : list (string * string) → string.
Variable runAll : bool.

(** Time passes until the call, then the call is made. *)
Definition send (c : Call) (w : World) : World :=
  sendRequest usp_toString runAll (call_method c) (call_url c)
    (assign_data (call_payload c) (advance usp_toString runAll (call_at c) w)).

Definition send_all (cs : list Call) (w : World) : World :=
  foldl (λ w c, send c w) w cs.

End Bursts.




(** ** Vocabulary of the statements *)

(** An entry fires on a dispatch with method [m] when it is not skipped. *)
Definition fires (m : option RequestMethod) (call : CallbackObject) : bool :=
  negb (skipped call m).

(** An entry stays in the list unless it fired and was registered once. *)
Definition stays (m : option RequestMethod) (call : CallbackObject) : bool :=
  negb (fires m call && once call).

Definition call_of (params : list Param) (call : CallbackObject) : Event :=
  EvCallback (func call) params.

(** The hooks a list run reaches when it stops at the first veto: the
    hooks up to and including the first one that answers [false]. *)
Fixpoint upto_first_veto (params : list Param) (hs : list RequestHook)
  : list RequestHook :=
  match hs with
  | [] => []
  | h :: rest =>
      if hook_fn h params then h :: upto_first_veto params rest else [h]
  end.

Definition hook_call (params : list Param) (h : RequestHook) : Event :=
  EvHook (hook_id h) params (hook_fn h params).

(** Some hook that was called answered [false]. *)
Definition vetoed (evs : list Event) : Prop :=
  ∃ id params, EvHook id params false ∈ evs.

(** The events a world gained since an earlier one. *)
Definition since (w w' : World) : list Event :=
  drop (length (trace w)) (trace w').

(** The requests handed to [fetch] in a list of events. *)
Fixpoint fetches (evs : list Event) : list Request :=
  match evs with
  | [] => []
  | EvFetch r :: evs' => r :: fetches evs'
  | _ :: evs' => fetches evs'
  end.

(** The [FailedParams] handed to the [failed] handler and to callbacks. *)
Fixpoint failures (evs : list Event) : list FailedParams :=
  match evs with
  | [] => []
  | EvFailedHandler f :: evs' => f :: failures evs'
  | EvCallback _ [PFailed f] :: evs' => f :: failures evs'
  | _ :: evs' => failures evs'
  end.

(** An entry without a method filter. *)
Definition unfiltered (call : CallbackObject) : bool :=
  match method call with
  | None => true
  | Some _ => false
  end.

(** The failure route with the artifact [f]: the [failed] handler, then
    the [failed] entries without a method filter, then the [finally]
    entries without a method filter. *)
Definition failure_route (f : FailedParams) (w : World) : list Event :=
  [EvFailedHandler f]
  ++ (call_of [PFailed f] <$>
        List.filter unfiltered (cb_failed (req_callback (request w))))
  ++ (call_of [PRequest (view w)] <$>
        List.filter unfiltered (cb_finally (req_callback (request w)))).

(** The artifact of a hook veto. *)
Definition veto_params (hook : RequestHookKey)
    (response : option RequestReturn) : FailedParams :=
  mkFailedParams (ErrError ("Request interrupted by " +:+ hook_name hook))
                 true (Some hook) response.

(** *** Path parameters, segment by segment *)

(** The component [c], met after the components [seen], is replaced: it
    is a template [:name], the value of [name] in the map [q] the call
    was given is truthy, and no earlier component is the same template
    (which would have consumed the key). *)
Definition replaces (q : gmap string JsValue) (seen : list string)
    (c : string) : bool :=
  starts_with_colon c
  && truthy (js_get q (remove_first ":"%char c))
  && negb (bool_decide (c ∈ seen)).

(** What the components become. *)
Fixpoint resolve (q : gmap string JsValue) (seen cs : list string)
  : list string :=
  match cs with
  | [] => []
  | c :: cs' =>
      (if replaces q seen c
       then to_string (js_get q (remove_first ":"%char c)) else c)
      :: resolve q (seen ++ [c]) cs'
  end.

(** The keys consumed on the way. *)
Fixpoint consumed (q : gmap string JsValue) (seen cs : list string)
  : list string :=
  match cs with
  | [] => []
  | c :: cs' =>
      if replaces q seen c
      then remove_first ":"%char c :: consumed q (seen ++ [c]) cs'
      else consumed q (seen ++ [c]) cs'
  end.

(** The map met after the components [seen]: the keys of the truthy
    templates among them are gone, the rest is as in [q]. *)
Definition map_after (q qc : gmap string JsValue) (seen : list string) : Prop :=
  ∀ k, qc !! k = if bool_decide (String ":" k ∈ seen) && truthy (js_get q k)
                 then None else q !! k.


(** ** A reference reading of [JSON.parse]

    The platform's [JSON.parse] is a parameter of the embedding. The
    examples instantiate it with the reader below, which follows the JSON
    grammar (ECMA-404): white space, the literals [null], [true] and
    [false], numbers (kept as their lexeme), strings with their escapes
    (a [\uXXXX] escape is kept as the six characters it is written
    with), arrays and objects. *)

Definition is_ws (c : ascii) : bool :=
  Ascii.eqb c " "%char || Ascii.eqb c "009"%char
  || Ascii.eqb c "010"%char || Ascii.eqb c "013"%char.

Fixpoint skip_ws (s : string) : string :=
  match s with
  | String c rest => if is_ws c then skip_ws rest else s
  | EmptyString => s
  end.

Definition is_digit (c : ascii) : bool :=
  (48 <=? nat_of_ascii c)%nat && (nat_of_ascii c <=? 57)%nat.

Definition is_hex (c : ascii) : bool :=
  is_digit c
  || ((65 <=? nat_of_ascii c)%nat && (nat_of_ascii c <=? 70)%nat)
  || ((97 <=? nat_of_ascii c)%nat && (nat_of_ascii c <=? 102)%nat).

(** Splits off the longest prefix of digits. *)
Fixpoint take_digits (s : string) : string * string :=
  match s with
  | String c rest =>
      if is_digit c
      then let '(d, r) := take_digits rest in (String c d, r)
      else (EmptyString, s)
  | EmptyString => (EmptyString, s)
  end.

(** [s] starts with [p]: what follows [p]. *)
Fixpoint strip_prefix (p s : string) : option string :=
  match p, s with
  | EmptyString, _ => Some s
  | String a p', String b s' =>
      if Ascii.eqb a b then strip_prefix p' s' else None
  | String _ _, EmptyString => None
  end.

(** A number: an optional minus sign, an integer part without a leading
    zero, an optional fraction and an optional exponent. *)
Definition read_number (s : string) : option (string * string) :=
  let '(sign, s1) :=
    match s with
    | String "-" r => ("-", r)
    | _ => ("", s)
    end in
  let '(int, s2) := take_digits s1 in
  let int_ok :=
    match int with
    | EmptyString => false
    | String "0" (String _ _) => false
    | _ => true
    end in
  if negb int_ok then None
  else
    let frac :=
      match s2 with
      | String "." r =>
          let '(d, r') := take_digits r in
          if String.eqb d "" then None else Some ("." +:+ d, r')
      | _ => Some ("", s2)
      end in
    match frac with
    | None => None
    | Some (fr, s3) =>
        match s3 with
        | String e r =>
            if Ascii.eqb e "e"%char || Ascii.eqb e "E"%char then
              let '(esign, r1) :=
                match r with
                | String "+" r' => ("+", r')
                | String "-" r' => ("-", r')
                | _ => ("", r)
                end in
              let '(d, r2) := take_digits r1 in
              if String.eqb d "" then None
              else Some (sign +:+ int +:+ fr +:+ String e esign +:+ d, r2)
            else Some (sign +:+ int +:+ fr, s3)
        | EmptyString => Some (sign +:+ int +:+ fr, s3)
        end
    end.

(** The characters of a string literal after its opening quote, up to
    the closing quote. *)
Fixpoint read_string (s : string) : option (string * string) :=
  match s with
  | EmptyString => None
  | String c rest =>
      if Ascii.eqb c "034"%char then Some (EmptyString, rest)
      else if Ascii.eqb c "\"%char then
        match rest with
        | String e rest' =>
            let continue (decoded : string) :=
              match read_string rest' with
              | Some (t, r) => Some (decoded +:+ t, r)
              | None => None
              end in
            if Ascii.eqb e "034"%char then continue (String "034" "")
            else if Ascii.eqb e "\"%char then continue "\"
            else if Ascii.eqb e "/"%char then continue "/"
            else if Ascii.eqb e "b"%char then continue (String "008" "")
            else if Ascii.eqb e "f"%char then continue (String "012" "")
            else if Ascii.eqb e "n"%char then continue (String "010" "")
            else if Ascii.eqb e "r"%char then continue (String "013" "")
            else if Ascii.eqb e "t"%char then continue (String "009" "")
            else if Ascii.eqb e "u"%char then
              match rest' with
              | String h1 (String h2 (String h3 (String h4 _))) =>
                  if is_hex h1 && is_hex h2 && is_hex h3 && is_hex h4
                  then continue "\u"
                  else None
              | _ => None
              end
            else None
        | EmptyString => None
        end
      else if (nat_of_ascii c <? 32)%nat then None
      else match read_string rest with
           | Some (t, r) => Some (String c t, r)
           | None => None
           end
  end.

(** A value, the items of an array after its first one and the members
    of an object after its first one; [fuel] bounds the nesting and the
    number of items read. *)
Fixpoint read_value (fuel : nat) (s : string) : option (Json * string) :=
  match fuel with
  | O => None
  | S n =>
      match skip_ws s with
      | String "{" rest =>
          match skip_ws rest with
          | String "}" r => Some (JsonObject [], r)
          | r => read_members n r []
          end
      | String "[" rest =>
          match skip_ws rest with
          | String "]" r => Some (JsonArray [], r)
          | r => read_items n r []
          end
      | String "034"%char rest =>
          match read_string rest with
          | Some (t, r) => Some (JsonString t, r)
          | None => None
          end
      | String "t" _ as s' =>
          match strip_prefix "true" s' with
          | Some r => Some (JsonBool true, r)
          | None => None
          end
      | String "f" _ as s' =>
          match strip_prefix "false" s' with
          | Some r => Some (JsonBool false, r)
          | None => None
          end
      | String "n" _ as s' =>
          match strip_prefix "null" s' with
          | Some r => Some (JsonNull, r)
          | None => None
          end
      | s' =>
          match read_number s' with
          | Some (lexeme, r) => Some (JsonNumber lexeme, r)
          | None => None
          end
      end
  end
with read_items (fuel : nat) (s : string) (acc : list Json)
  : option (Json * string) :=
  match fuel with
  | O => None
  | S n =>
      match read_value n s with
      | Some (v, r) =>
          match skip_ws r with
          | String "," r' => read_items n r' (acc ++ [v])
          | String "]" r' => Some (JsonArray (acc ++ [v]), r')
          | _ => None
          end
      | None => None
      end
  end
with read_members (fuel : nat) (s : string) (acc : list (string * Json))
  : option (Json * string) :=
  match fuel with
  | O => None
  | S n =>
      match skip_ws s with
      | String "034"%char rest =>
          match read_string rest with
          | Some (key, r) =>
              match skip_ws r with
              | String ":" r1 =>
                  match read_value n r1 with
                  | Some (v, r2) =>
                      match skip_ws r2 with
                      | String "," r3 => read_members n r3 (acc ++ [(key, v)])
                      | String "}" r3 => Some (JsonObject (acc ++ [(key, v)]), r3)
                      | _ => None
                      end
                  | None => None
                  end
              | _ => None
              end
          | None => None
          end
      | _ => None
      end
  end.

(** One value, white space around it, and nothing else. *)
Definition read_json (s : string) : option Json :=
  match read_value (S (String.length s)) s with
  | Some (v, r) => if String.eqb (skip_ws r) "" then Some v else None
  | None => None
  end.

(** ** Concrete data for the examples *)

(** A serialiser that joins [name=value] pairs with [&], without any
    escaping. *)
Definition plain_toString (l : list (string * string)) : string :=
  join "&" ((λ kv, kv.1 +:+ "=" +:+ kv.2) <$> l).

(** A hook that vetoes and a hook that lets pass. *)
Definition veto_hook : RequestHook := mkHook 1 (λ _, false).
Definition pass_hook : RequestHook := mkHook 2 (λ _, true).

Definition no_hooks : RequestHooks := mkHooks NoHooks NoHooks NoHooks NoHooks.

(** A descriptor that was never sent: its payload at location 0, no timer,
    no transport request, an empty trace. *)
Definition fresh_world (url : string) (payload : gmap string JsValue)
    (cfg : Config) (cb : Callbacks) : World :=
  mkWorld {[ 0%nat := payload ]}
          (mkFastjsRequest url 0%nat cfg cb None None)
          [] 0 0%nat [].

(** One entry per list: a [failed] and a [finally] callback without a
    method filter, and a [success] callback. *)
Definition plain_callbacks : Callbacks :=
  mkCallbacks [mkCallback 10 false None] [mkCallback 11 false None]
              [mkCallback 12 false None].


(** The response code predicate of the examples: the 2xx codes. *)
Definition status_2xx (status : Z) : bool :=
  (200 <=? status) && (status <? 300).

(** A descriptor whose [failed] hook vetoes, and a 404 response. *)
Definition failed_veto_world : World :=
  fresh_world "/users" ∅
    (mkConfig [] QNull None
       (mkHooks NoHooks NoHooks NoHooks (OneHook veto_hook)))
    plain_callbacks.

Definition not_found : Response := mkResponse 404 [] "not found".

(** A descriptor with one [success] callback and two [finally]
    callbacks, the second one filtered on [POST]; and a 200 response. *)
Definition filtered_finally_world : World :=
  fresh_world "/users" ∅ (mkConfig [] QNull None no_hooks)
    (mkCallbacks [mkCallback 20 false None] []
                 [mkCallback 21 false None; mkCallback 22 false (Some POST)]).

Definition ok_response : Response := mkResponse 200 [] "[1, 2]".

(** The reading of the success path in which [finally] is dispatched
    without a method filter: every [finally] entry is called, whatever
    its filter. *)
Definition finally_unfiltered_on_success : Prop :=
  ∀ (JSON_parse : string → option Json) (handleResponse : Response → string)
    (responseCode : Z → bool) (runAll : bool) (f : Frame)
    (response : Response) (w : World),
    responseCode (resp_status response) = true →
    (runHooks runAll (hooks_success (cfg_hooks (req_config (request w))))
       [PReturn (requestReturn JSON_parse f response (handleResponse response));
        PRequest (view w)]).1 = true →
    ∀ c, c ∈ cb_finally (req_callback (request w)) →
         call_of [PRequest (view w)] c
         ∈ since w (onFulfilled JSON_parse handleResponse responseCode
                                runAll f response w).

(** A descriptor debounced by 50 ms and three calls, at 0, 10 and 20 ms,
    with the payloads [{n: 1}], [{n: 2}] and [{n: 3}]. *)
Definition debounced_world : World :=
  fresh_world "/items" ∅ (mkConfig [] QNull (Some 50) no_hooks)
              plain_callbacks.

Definition call1 : Call := mkCall 0 {[ "n" := JNum 1 ]} POST "/items".
Definition call2 : Call := mkCall 10 {[ "n" := JNum 2 ]} POST "/items".
Definition call3 : Call := mkCall 20 {[ "n" := JNum 3 ]} POST "/items".



(** ** Further vocabulary *)



(** What no dispatch and no failure route changes. *)
Definition same_frame (w w' : World) : Prop :=
  store w' = store w
  ∧ timers w' = timers w
  ∧ now w' = now w
  ∧ next_handle w' = next_handle w
  ∧ req_url (request w') = req_url (request w)
  ∧ req_data (request w') = req_data (request w)
  ∧ req_config (request w') = req_config (request w)
  ∧ req_wait (request w') = req_wait (request w)
  ∧ req_request (request w') = req_request (request w).

(** A 503 response and a descriptor with a callback in each list, the
    [failed] and [finally] lists holding also an entry filtered on
    [GET]. *)
Definition unavailable : Response := mkResponse 503 [] "busy".

Definition mixed_callbacks_world : World :=
  fresh_world "/users" ∅ (mkConfig [] QNull None no_hooks)
    (mkCallbacks [mkCallback 30 true None]
                 [mkCallback 31 false None; mkCallback 32 false (Some GET)]
                 [mkCallback 33 false None; mkCallback 34 false (Some GET)]).

Section Built.

Variable usp_toString : list (string * string) → string.
Variable runAll : bool.

(** The store [passthrough] leaves when the [before] hooks let it pass:
    the payload has lost the keys the path consumed. *)
Definition resolved_store (f : Frame) (w : World)
  : gmap nat (gmap string JsValue) :=
  <[req_data (request w) :=
      (transformPathParams (fr_url f)
         (obj_at (store w) (req_data (request w)))).2]> (store w).

(** The transport request [passthrough] builds in the state [w]. *)
Definition built (f : Frame) (w : World) : Request :=
  mkRequest
    (addQuery usp_toString
       (transformPathParams (fr_url f)
          (obj_at (store w) (req_data (request w)))).1.1
       (fr_query f) None (resolved_store f w)).1.1
    (fr_method f)
    (cfg_headers (req_config (request w)))
    (match fr_body f with
     | Some b => Some (obj_at (resolved_store f w) b)
     | None => None
     end).

(** [resend: () => sendRequest(request, method)]: the URL is the default
    of the parameter, [request.url]. *)
Definition resend (r : RequestReturn) (w : World) : World :=
  sendRequest usp_toString runAll (rr_resend r) (req_url (request w)) w.

End Built.


(** The artifacts the pipeline builds: a veto names its hook and carries
    the error of the interruption, any other artifact names no hook. *)
Definition artifact_shape (fp : FailedParams) : Prop :=
  (fp_intercept fp = true ↔ is_Some (fp_hook fp))
  ∧ (∀ hook, fp_hook fp = Some hook →
             fp_error fp
             = ErrError ("Request interrupted by " +:+ hook_name hook))
  ∧ (is_Some (fp_response fp) →
     fp_hook fp = Some success ∨ fp_hook fp = None).

(** A descriptor for [/users/:id] without hooks nor debounce, holding the
    payload [{id: "7", active: true}]. *)
Definition users_world : World :=
  fresh_world "/users/:id"
    (<["id" := JStr "7"]> {[ "active" := JBool true ]})
    (mkConfig [] QNull None no_hooks) plain_callbacks.




(** Three calls 50 ms apart. *)
Definition late2 : Call := mkCall 50 {[ "n" := JNum 2 ]} POST "/items".
Definition late3 : Call := mkCall 100 {[ "n" := JNum 3 ]} POST "/items".

(** * Properties *)

Example transformPathParams_users :
  transformPathParams "/users/:id"
    (<["id" := JStr "7"]> (<["active" := JBool true]> ∅))
  = ("/users/7", ["id"], <["active" := JBool true]> ∅).
Proof. vm_compute. reflexivity. Qed.

Example matchCallback_once :
  matchCallback [mkCallback 1 true None; mkCallback 2 false (Some POST);
                 mkCallback 3 false None] [] (Some GET)
  = ([mkCallback 2 false (Some POST); mkCallback 3 false None],
     [EvCallback 1 []; EvCallback 3 []]).
Proof. reflexivity. Qed.

(** ** The callback dispatcher *)

Lemma matchCallbackLoop_eq callback params m i :
  matchCallbackLoop callback params m i =
  match callback !! i with
  | None => (callback, [])
  | Some call =>
      if skipped call m then matchCallbackLoop callback params m (S i)
      else if once call
           then prepend (call_of params call)
                  (matchCallbackLoop (delete i callback) params m i)
           else prepend (call_of params call)
                  (matchCallbackLoop callback params m (S i))
  end.
Proof.
  funelim (matchCallbackLoop callback params m i).
  - rewrite Hi. reflexivity.
  - rewrite e. reflexivity.
Qed.

Lemma take_delete_same {A} (l : list A) (i : nat) :
  (i < length l)%nat → take i (delete i l) = take i l.
Proof.
  intros Hlt. rewrite delete_take_drop.
  rewrite take_app_length'; [reflexivity|]. rewrite length_take. lia.
Qed.

Lemma drop_delete_same {A} (l : list A) (i : nat) :
  (i < length l)%nat → drop i (delete i l) = drop (S i) l.
Proof.
  intros Hlt. rewrite delete_take_drop.
  rewrite drop_app_length'; [reflexivity|]. rewrite length_take. lia.
Qed.

(** What the loop started at index [i] computes: the entries before [i]
    are untouched, the entries from [i] on that stay are kept in order,
    and one call is made per firing entry, in order. *)
Lemma matchCallbackLoop_spec params m (n : nat) :
  ∀ (callback : list CallbackObject) (i : nat),
    (length callback - i = n)%nat →
    matchCallbackLoop callback params m i =
    (take i callback ++ List.filter (stays m) (drop i callback),
     call_of params <$> List.filter (fires m) (drop i callback)).
Proof.
  induction n as [n IH] using lt_wf_ind. intros callback i Hn.
  rewrite matchCallbackLoop_eq.
  destruct (callback !! i) as [call|] eqn:Hi.
  - pose proof (lookup_lt_Some _ _ _ Hi) as Hlt.
    assert (Hf : fires m call = negb (skipped call m)) by reflexivity.
    assert (Hst : stays m call = negb (negb (skipped call m) && once call))
      by reflexivity.
    rewrite (drop_S _ _ _ Hi). cbn [List.filter]. rewrite Hf, Hst.
    destruct (skipped call m) eqn:Hs; cbn [negb andb].
    + rewrite (IH (length callback - S i)%nat) by lia.
      rewrite (take_S_r _ _ _ Hi), <- app_assoc. reflexivity.
    + destruct (once call) eqn:Ho; cbn [negb].
      * rewrite (IH (length (delete i callback) - i)%nat);
          [|rewrite length_delete by eauto; lia|reflexivity].
        unfold prepend; cbn [fst snd].
        rewrite take_delete_same, drop_delete_same by lia.
        reflexivity.
      * rewrite (IH (length callback - S i)%nat) by lia.
        unfold prepend; cbn [fst snd].
        rewrite (take_S_r _ _ _ Hi), <- app_assoc. reflexivity.
  - apply lookup_ge_None in Hi.
    rewrite drop_ge by lia. rewrite take_ge by lia.
    simpl. rewrite app_nil_r. reflexivity.
Qed.

Lemma matchCallback_spec callback params m :
  matchCallback callback params m =
  (List.filter (stays m) callback,
   call_of params <$> List.filter (fires m) callback).
Proof.
  unfold matchCallback.
  rewrite (matchCallbackLoop_spec params m (length callback - 0)%nat) by reflexivity.
  rewrite drop_0. reflexivity.
Qed.

Lemma skipped_iff call m :
  skipped call m = true ↔ ∃ filter, method call = Some filter ∧ Some filter ≠ m.
Proof.
  unfold skipped. destruct (method call) as [cm|].
  - rewrite negb_true_iff, bool_decide_eq_false. split.
    + intros H. exists cm. auto.
    + intros (x & Hx & Hne). congruence.
  - split; [discriminate|]. intros (x & Hx & _). discriminate.
Qed.

Lemma fires_iff call m :
  fires m call = true ↔ method call = None ∨ method call = m.
Proof.
  unfold fires, skipped. destruct (method call) as [cm|]; simpl.
  - rewrite negb_involutive, bool_decide_eq_true. split; [auto|].
    intros [H|H]; [discriminate|auto].
  - split; auto.
Qed.

(** C6. [matchCallback] goes through the entries in registration order.
    An entry whose method filter is set and differs from the method of
    the dispatch makes no call and remains in the list. Every other entry
    is called exactly once, with the given parameters: the calls are the
    firing entries, in order. An entry registered with [once] is removed
    after its call and the entry after it is still processed: the list
    left is the original one without the [once] entries that fired, so
    such an entry is not called by any later dispatch of the list. *)
Theorem matchCallback_dispatch (callback : list CallbackObject)
    (params : list Param) (m : option RequestMethod) :
  (matchCallback callback params m).2
    = call_of params <$> List.filter (fires m) callback
  ∧ (matchCallback callback params m).1
    = List.filter (λ c, skipped c m || negb (once c)) callback
  ∧ (∀ c, c ∈ callback → skipped c m = true →
       c ∈ (matchCallback callback params m).1)
  ∧ (∀ c, c ∈ (matchCallback callback params m).1 →
       c ∈ callback ∧ (fires m c = true → once c = false))
  ∧ (∀ params' m',
       (matchCallback (matchCallback callback params m).1 params' m').2
       = call_of params' <$>
           List.filter (λ c, fires m' c && (skipped c m || negb (once c)))
                       callback)
  ∧ (∀ c, skipped c m = true
          ↔ ∃ filter, method c = Some filter ∧ Some filter ≠ m)
  ∧ (∀ c, fires m c = negb (skipped c m)).
Proof.
  rewrite matchCallback_spec. cbn [fst snd].
  assert (Hst : ∀ c, stays m c = skipped c m || negb (once c)).
  { intros c. unfold stays, fires. destruct (skipped c m), (once c); reflexivity. }
  assert (Hfl : List.filter (stays m) callback
                = List.filter (λ c, skipped c m || negb (once c)) callback).
  { apply List.filter_ext. exact Hst. }
  split; [reflexivity|]. split; [exact Hfl|].
  split; [|split; [|split; [|split]]];
    [| | |intros c; apply skipped_iff|reflexivity].
  - intros c Hc Hs. apply list_elem_of_In, List.filter_In. split.
    + apply list_elem_of_In, Hc.
    + rewrite Hst, Hs. reflexivity.
  - intros c Hc. apply list_elem_of_In, List.filter_In in Hc.
    destruct Hc as [Hin Hc]. split; [apply list_elem_of_In, Hin|].
    intros Hf. unfold stays in Hc. rewrite Hf in Hc.
    destruct (once c); [discriminate|reflexivity].
  - intros params' m'. rewrite matchCallback_spec. cbn [snd]. f_equal.
    rewrite Hfl. clear. induction callback as [|c l IH]; [reflexivity|].
    cbn [List.filter]. destruct (skipped c m || negb (once c)); cbn [List.filter].
    + rewrite andb_true_r. destruct (fires m' c); rewrite IH; reflexivity.
    + rewrite andb_false_r. exact IH.
Qed.

(** ** The hook runner *)

Lemma upto_first_veto_all params hs :
  (∀ h, h ∈ hs → hook_fn h params = true) →
  upto_first_veto params hs = hs.
Proof.
  induction hs as [|h hs IH]; intros Hall; [reflexivity|].
  cbn [upto_first_veto]. rewrite (Hall h) by left.
  rewrite IH; [reflexivity|]. intros h' Hh'. apply Hall. right. exact Hh'.
Qed.

Lemma upto_first_veto_take params hs (k : nat) h :
  hs !! k = Some h →
  hook_fn h params = false →
  (∀ (j : nat) h', (j < k)%nat → hs !! j = Some h' → hook_fn h' params = true) →
  upto_first_veto params hs = take (S k) hs.
Proof.
  revert k. induction hs as [|h0 hs IH]; intros k Hk Hf Hbefore.
  - discriminate.
  - destruct k as [|k]; cbn [upto_first_veto].
    + injection Hk as ->. rewrite Hf. reflexivity.
    + rewrite (Hbefore 0%nat h0) by (reflexivity || lia).
      rewrite firstn_cons. f_equal. apply (IH k); [exact Hk|exact Hf|].
      intros j h' Hj Hl. apply (Hbefore (S j)); [lia|exact Hl].
Qed.

Lemma runHookList_spec runAll hs params result :
  runHookList runAll hs params result =
  (result && forallb (λ h, hook_fn h params) hs,
   hook_call params <$> (if runAll then hs else upto_first_veto params hs)).
Proof.
  revert result. induction hs as [|h hs IH]; intros result.
  - cbn. rewrite andb_true_r. destruct runAll; reflexivity.
  - cbn [runHookList forallb upto_first_veto].
    destruct (hook_fn h params) eqn:Hh; cbn [negb].
    + rewrite IH. destruct runAll; cbn; unfold hook_call at 2;
        rewrite ?Hh; reflexivity.
    + destruct runAll; cbn [negb].
      * rewrite IH. cbn. unfold hook_call at 2.
        rewrite andb_false_r, Hh. reflexivity.
      * cbn. unfold hook_call. rewrite andb_false_r, Hh. reflexivity.
Qed.

Lemma forallb_false_veto params (hs : list RequestHook) :
  forallb (λ h, hook_fn h params) hs = false ↔
  ∃ h, h ∈ upto_first_veto params hs ∧ hook_fn h params = false.
Proof.
  induction hs as [|h hs IH]; cbn [forallb upto_first_veto].
  - split; [discriminate|]. intros (h & Hin & _). inversion Hin.
  - destruct (hook_fn h params) eqn:Hh; cbn [andb].
    + rewrite IH. split.
      * intros (h' & Hin & Hf). exists h'. split; [right; exact Hin|exact Hf].
      * intros (h' & Hin & Hf). apply elem_of_cons in Hin as [->|Hin].
        -- congruence.
        -- exists h'. auto.
    + split; [|reflexivity]. intros _. exists h. split; [left|exact Hh].
Qed.

Lemma upto_first_veto_subset params (hs : list RequestHook) h :
  h ∈ upto_first_veto params hs → h ∈ hs.
Proof.
  induction hs as [|h0 hs IH]; cbn [upto_first_veto]; [auto|].
  destruct (hook_fn h0 params).
  - intros Hin. apply elem_of_cons in Hin as [->|Hin]; [left|right; auto].
  - intros Hin. apply list_elem_of_singleton in Hin as ->. left.
Qed.

Lemma runHooks_false_iff runAll hooks params :
  (runHooks runAll hooks params).1 = false ↔
  ∃ id, EvHook id params false ∈ (runHooks runAll hooks params).2.
Proof.
  destruct hooks as [|h|hs]; cbn [runHooks fst snd].
  - split; [discriminate|]. intros (id & Hin). inversion Hin.
  - split.
    + intros Hf. exists (hook_id h). rewrite Hf. left.
    + intros (id & Hin). apply list_elem_of_singleton in Hin.
      injection Hin as _ Hin. auto.
  - rewrite runHookList_spec. cbn [fst snd andb].
    rewrite forallb_false_veto. split.
    + intros (h & Hin & Hf). exists (hook_id h).
      apply list_elem_of_fmap. exists h. split.
      * unfold hook_call. rewrite Hf. reflexivity.
      * destruct runAll; [eapply upto_first_veto_subset|]; exact Hin.
    + intros (id & Hin). apply list_elem_of_fmap in Hin as (h & Heq & Hin).
      injection Heq as _ Hf. symmetry in Hf.
      destruct runAll; [|exists h; auto].
      apply forallb_false_veto.
      destruct (forallb (λ h, hook_fn h params) hs) eqn:Hall; [|reflexivity].
      rewrite forallb_forall in Hall.
      rewrite (Hall h) in Hf; [discriminate|]. apply list_elem_of_In, Hin.
Qed.

(** C4. [runHooks] answers [true] when the hook set is absent and the
    answer of the function when the set is a single function. For a list
    it calls the hooks in order, each with the same parameters, and
    answers [false] exactly when a hook it called answered [false]: with
    [runAll] off the hooks called are those up to and including the
    first one that answers [false], with [runAll] on they are all the
    hooks, and the answer is still [false] when one of them answered
    [false]. The answer is a returned boolean in every case. *)
Theorem runHooks_answer (runAll : bool) (params : list Param) :
  runHooks runAll NoHooks params = (true, [])
  ∧ (∀ h, runHooks runAll (OneHook h) params
          = (hook_fn h params, [hook_call params h]))
  ∧ (∀ hs, runHooks runAll (ManyHooks hs) params
           = (forallb (λ h, hook_fn h params) hs,
              hook_call params <$>
                (if runAll then hs else upto_first_veto params hs)))
  ∧ (∀ hs, (∀ h, h ∈ hs → hook_fn h params = true) →
           upto_first_veto params hs = hs)
  ∧ (∀ hs (k : nat) h,
       hs !! k = Some h → hook_fn h params = false →
       (∀ (j : nat) h', (j < k)%nat → hs !! j = Some h' →
                        hook_fn h' params = true) →
       upto_first_veto params hs = take (S k) hs)
  ∧ (∀ hooks,
       (runHooks runAll hooks params).1 = false ↔
       ∃ id, EvHook id params false ∈ (runHooks runAll hooks params).2).
Proof.
  split; [reflexivity|]. split; [reflexivity|]. split.
  { intros hs. cbn [runHooks]. rewrite runHookList_spec. reflexivity. }
  split; [apply upto_first_veto_all|]. split.
  { intros hs k h. apply upto_first_veto_take. }
  intros hooks. apply runHooks_false_iff.
Qed.

(** ** The failure route *)

Lemma fires_None call : fires None call = unfiltered call.
Proof.
  unfold fires, skipped, unfiltered. destruct (method call); reflexivity.
Qed.

Lemma filter_fires_None (l : list CallbackObject) :
  List.filter (fires None) l = List.filter unfiltered l.
Proof. apply List.filter_ext. exact fires_None. Qed.

Lemma trace_dispatch k params m w :
  trace (dispatch k params m w)
  = trace w ++ (call_of params <$>
                  List.filter (fires m) (get_callbacks k (req_callback (request w)))).
Proof.
  unfold dispatch. rewrite matchCallback_spec. reflexivity.
Qed.

Lemma callback_dispatch k params m w :
  req_callback (request (dispatch k params m w))
  = put_callbacks k
      (List.filter (stays m) (get_callbacks k (req_callback (request w))))
      (req_callback (request w)).
Proof.
  unfold dispatch. rewrite matchCallback_spec. reflexivity.
Qed.

Lemma frame_dispatch k params m w :
  store (dispatch k params m w) = store w
  ∧ timers (dispatch k params m w) = timers w
  ∧ now (dispatch k params m w) = now w
  ∧ next_handle (dispatch k params m w) = next_handle w
  ∧ req_url (request (dispatch k params m w)) = req_url (request w)
  ∧ req_data (request (dispatch k params m w)) = req_data (request w)
  ∧ req_config (request (dispatch k params m w)) = req_config (request w)
  ∧ req_wait (request (dispatch k params m w)) = req_wait (request w)
  ∧ req_request (request (dispatch k params m w)) = req_request (request w).
Proof.
  unfold dispatch. rewrite matchCallback_spec. cbn. repeat split.
Qed.

Lemma view_dispatch k params m w : view (dispatch k params m w) = view w.
Proof.
  unfold dispatch. rewrite matchCallback_spec. reflexivity.
Qed.

Lemma get_put_other k k' l c :
  k ≠ k' → get_callbacks k' (put_callbacks k l c) = get_callbacks k' c.
Proof. destruct k, k'; intros H; try congruence; reflexivity. Qed.

Lemma trace_hookFailed hook response w :
  trace (hookFailed hook response w)
  = trace w ++ failure_route (veto_params hook response) w.
Proof.
  unfold hookFailed, failure_route.
  rewrite trace_dispatch, callback_dispatch, view_dispatch, trace_dispatch.
  cbn [emit request req_callback trace set_request]. 
  rewrite get_put_other by discriminate.
  rewrite !filter_fires_None. cbn [get_callbacks].
  rewrite <- !app_assoc. reflexivity.
Qed.

Lemma frame_hookFailed hook response w :
  store (hookFailed hook response w) = store w
  ∧ timers (hookFailed hook response w) = timers w
  ∧ now (hookFailed hook response w) = now w
  ∧ next_handle (hookFailed hook response w) = next_handle w
  ∧ req_url (request (hookFailed hook response w)) = req_url (request w)
  ∧ req_data (request (hookFailed hook response w)) = req_data (request w)
  ∧ req_config (request (hookFailed hook response w)) = req_config (request w)
  ∧ req_wait (request (hookFailed hook response w)) = req_wait (request w)
  ∧ req_request (request (hookFailed hook response w)) = req_request (request w).
Proof.
  unfold hookFailed.
  repeat match goal with
         | |- context [dispatch ?k ?p ?m ?w] =>
             let H := fresh in
             pose proof (frame_dispatch k p m w) as H;
             destruct H as (-> & -> & -> & -> & -> & -> & -> & -> & ->)
         end.
  cbn. repeat split.
Qed.

Lemma callback_hookFailed hook response w :
  req_callback (request (hookFailed hook response w))
  = mkCallbacks
      (cb_success (req_callback (request w)))
      (List.filter (stays None) (cb_failed (req_callback (request w))))
      (List.filter (stays None) (cb_finally (req_callback (request w)))).
Proof.
  unfold hookFailed. rewrite !callback_dispatch. reflexivity.
Qed.

Lemma since_app w w' evs : trace w' = trace w ++ evs → since w w' = evs.
Proof.
  intros H. unfold since. rewrite H. rewrite drop_app_length. reflexivity.
Qed.

Lemma run_hooks_eq runAll hooks params w :
  run_hooks runAll hooks params w
  = ((runHooks runAll hooks params).1,
     emit (runHooks runAll hooks params).2 w).
Proof.
  unfold run_hooks. destruct (runHooks runAll hooks params). reflexivity.
Qed.

Lemma failure_route_emit f evs w :
  failure_route f (emit evs w) = failure_route f w.
Proof. reflexivity. Qed.

Lemma trace_handleBadResponse runAll response w :
  let run := runHooks runAll (hooks_failed (cfg_hooks (req_config (request w))))
                      [PStatus (rr_status response); PRequest (view w)] in
  trace (handleBadResponse runAll response w)
  = trace w ++ run.2
    ++ failure_route
         (if run.1
          then mkFailedParams (ErrStatus (rr_status response)) false None
                              (Some response)
          else veto_params failed None) w.
Proof.
  cbn zeta. unfold handleBadResponse. rewrite run_hooks_eq.
  destruct (runHooks _ _ _).1; cbn [negb].
  - rewrite trace_dispatch, callback_dispatch, view_dispatch, trace_dispatch.
    cbn [emit request req_callback trace set_request].
    rewrite get_put_other by discriminate.
    rewrite !filter_fires_None. unfold failure_route. cbn [get_callbacks].
    rewrite <- !app_assoc. reflexivity.
  - rewrite trace_hookFailed, failure_route_emit. cbn [emit trace].
    rewrite <- app_assoc. reflexivity.
Qed.

Lemma stays_filtered m call :
  skipped call m = true → stays m call = true.
Proof. unfold stays, fires. intros ->. reflexivity. Qed.

Lemma skipped_None call : skipped call None = negb (unfiltered call).
Proof. unfold skipped, unfiltered. destruct (method call); reflexivity. Qed.

Lemma filtered_stays_None (l : list CallbackObject) c :
  c ∈ l → unfiltered c = false → c ∈ List.filter (stays None) l.
Proof.
  intros Hin Hf. apply list_elem_of_In, List.filter_In. split.
  - apply list_elem_of_In, Hin.
  - apply stays_filtered. rewrite skipped_None, Hf. reflexivity.
Qed.

(** The remaining failure path, the [catch] handler of a rejected
    transport, hands the method of the request to [matchCallback] when
    no hook vetoes. *)
Lemma trace_onRejected runAll f error w :
  let run := runHooks runAll (hooks_failed (cfg_hooks (req_config (request w))))
                      [PError error; PRequest (view w)] in
  let fp := mkFailedParams (ErrError error) false None None in
  trace (onRejected runAll f error w)
  = trace w ++ run.2
    ++ (if run.1
        then [EvFailedHandler fp]
             ++ (call_of [PFailed fp] <$>
                   List.filter (fires (Some (fr_method f)))
                               (cb_failed (req_callback (request w))))
             ++ (call_of [PRequest (view w)] <$>
                   List.filter (fires (Some (fr_method f)))
                               (cb_finally (req_callback (request w))))
        else failure_route (veto_params failed None) w).
Proof.
  cbn zeta. unfold onRejected. rewrite run_hooks_eq.
  destruct (runHooks _ _ _).1; cbn [negb].
  - rewrite trace_dispatch, callback_dispatch, view_dispatch, trace_dispatch.
    cbn [emit request req_callback trace set_request].
    rewrite get_put_other by discriminate. cbn [get_callbacks].
    rewrite <- !app_assoc. reflexivity.
  - rewrite trace_hookFailed, failure_route_emit. cbn [emit trace].
    rewrite <- app_assoc. reflexivity.
Qed.

(** C9. Every dispatch of the failure paths is made with a [null]
    method. [hookFailed] (any hook veto) calls the [failed] handler and
    then exactly the [failed] and the [finally] entries that carry no
    method filter; the non-veto bad status path of [handleBadResponse]
    does the same. An entry that carries a method filter makes no call on
    these paths and stays registered; the method of the request plays no
    part. *)
Theorem failure_paths_skip_filtered (runAll : bool) (w : World) :
  (∀ hook response,
     since w (hookFailed hook response w)
     = [EvFailedHandler (veto_params hook response)]
       ++ (call_of [PFailed (veto_params hook response)] <$>
             List.filter unfiltered (cb_failed (req_callback (request w))))
       ++ (call_of [PRequest (view w)] <$>
             List.filter unfiltered (cb_finally (req_callback (request w))))
     ∧ (∀ c, c ∈ cb_failed (req_callback (request w)) →
             unfiltered c = false →
             c ∈ cb_failed (req_callback (request (hookFailed hook response w))))
     ∧ (∀ c, c ∈ cb_finally (req_callback (request w)) →
             unfiltered c = false →
             c ∈ cb_finally (req_callback (request (hookFailed hook response w)))))
  ∧ (∀ response,
       let run := runHooks runAll
                    (hooks_failed (cfg_hooks (req_config (request w))))
                    [PStatus (rr_status response); PRequest (view w)] in
       let f := if run.1
                then mkFailedParams (ErrStatus (rr_status response)) false
                                    None (Some response)
                else veto_params failed None in
       since w (handleBadResponse runAll response w)
       = run.2 ++ [EvFailedHandler f]
         ++ (call_of [PFailed f] <$>
               List.filter unfiltered (cb_failed (req_callback (request w))))
         ++ (call_of [PRequest (view w)] <$>
               List.filter unfiltered (cb_finally (req_callback (request w)))))
  ∧ (∀ c, unfiltered c = false ↔ ∃ filter, method c = Some filter)
  ∧ (∀ c, fires None c = unfiltered c).
Proof.
  split; [|split; [|split]].
  - intros hook response. split; [|split].
    + apply since_app. apply trace_hookFailed.
    + intros c Hin Hf. rewrite callback_hookFailed. cbn [cb_failed].
      apply filtered_stays_None; assumption.
    + intros c Hin Hf. rewrite callback_hookFailed. cbn [cb_finally].
      apply filtered_stays_None; assumption.
  - intros response. cbn zeta. apply since_app.
    rewrite trace_handleBadResponse. reflexivity.
  - intros c. unfold unfiltered. destruct (method c) as [x|].
    + split; [eauto|reflexivity].
    + split; [discriminate|]. intros (x & Hx). discriminate.
  - exact fires_None.
Qed.

(** ** Reading the trace *)

Lemma fetches_app evs1 evs2 :
  fetches (evs1 ++ evs2) = fetches evs1 ++ fetches evs2.
Proof.
  induction evs1 as [|e evs1 IH]; [reflexivity|].
  destruct e; cbn; rewrite IH; reflexivity.
Qed.

Lemma fetches_calls params (l : list CallbackObject) :
  fetches (call_of params <$> l) = [].
Proof. induction l; [reflexivity|exact IHl]. Qed.

Lemma fetches_hook_calls params (l : list RequestHook) :
  fetches (hook_call params <$> l) = [].
Proof. induction l; [reflexivity|exact IHl]. Qed.

Lemma fetches_runHooks runAll hooks params :
  fetches (runHooks runAll hooks params).2 = [].
Proof.
  destruct hooks as [|h|hs]; [reflexivity|reflexivity|].
  cbn [runHooks]. rewrite runHookList_spec. apply fetches_hook_calls.
Qed.

Lemma fetches_failure_route f w : fetches (failure_route f w) = [].
Proof.
  unfold failure_route. rewrite !fetches_app, !fetches_calls. reflexivity.
Qed.

Lemma failures_app evs1 evs2 :
  failures (evs1 ++ evs2) = failures evs1 ++ failures evs2.
Proof.
  induction evs1 as [|e evs1 IH]; [reflexivity|].
  destruct e as [| |id params| | |]; cbn; rewrite ?IH; try reflexivity.
  destruct params as [|[] [|]]; cbn; rewrite ?IH; reflexivity.
Qed.

Lemma failures_hook_calls params (l : list RequestHook) :
  failures (hook_call params <$> l) = [].
Proof. induction l; [reflexivity|exact IHl]. Qed.

Lemma failures_runHooks runAll hooks params :
  failures (runHooks runAll hooks params).2 = [].
Proof.
  destruct hooks as [|h|hs]; [reflexivity|reflexivity|].
  cbn [runHooks]. rewrite runHookList_spec. apply failures_hook_calls.
Qed.

Lemma failures_failed_calls f (l : list CallbackObject) :
  failures (call_of [PFailed f] <$> l) = replicate (length l) f.
Proof. induction l; [reflexivity|]. cbn. f_equal. exact IHl. Qed.

Lemma failures_request_calls v (l : list CallbackObject) :
  failures (call_of [PRequest v] <$> l) = [].
Proof. induction l; [reflexivity|exact IHl]. Qed.

Lemma failures_failure_route f w :
  failures (failure_route f w)
  = f :: replicate
           (length (List.filter unfiltered (cb_failed (req_callback (request w)))))
           f.
Proof.
  unfold failure_route.
  rewrite !failures_app, failures_failed_calls, failures_request_calls.
  cbn. rewrite app_nil_r. reflexivity.
Qed.

Lemma vetoed_runHooks runAll hooks params :
  vetoed (runHooks runAll hooks params).2 →
  (runHooks runAll hooks params).1 = false.
Proof.
  intros (id & params' & Hin). apply runHooks_false_iff.
  exists id. destruct hooks as [|h|hs]; cbn [runHooks snd] in *.
  - inversion Hin.
  - apply list_elem_of_singleton in Hin. injection Hin as -> <- Hr.
    rewrite <- Hr. left.
  - rewrite runHookList_spec in *. cbn [snd] in *.
    apply list_elem_of_fmap in Hin as (h & Heq & Hin).
    injection Heq as -> -> Hr. apply list_elem_of_fmap. exists h.
    split; [|exact Hin]. unfold hook_call. rewrite <- Hr. reflexivity.
Qed.

(** ** A veto of the [before] hook *)



(** ** The path parameter resolver *)

Lemma starts_with_colon_inv c :
  starts_with_colon c = true → c = String ":" (remove_first ":"%char c).
Proof.
  destruct c as [|a c]; [discriminate|]. cbn.
  destruct (Ascii.eqb a ":") eqn:Ha; [|discriminate].
  apply Ascii.eqb_eq in Ha. subst. reflexivity.
Qed.

Lemma map_after_get q qc seen c :
  map_after q qc seen →
  starts_with_colon c = true →
  truthy (js_get qc (remove_first ":"%char c))
  = truthy (js_get q (remove_first ":"%char c)) && negb (bool_decide (c ∈ seen)).
Proof.
  intros Hinv Hc. apply starts_with_colon_inv in Hc.
  set (k := remove_first ":"%char c) in *.
  unfold js_get at 1. rewrite (Hinv k), <- Hc.
  destruct (bool_decide (c ∈ seen)); cbn [andb negb].
  - destruct (truthy (js_get q k)) eqn:Ht; [reflexivity|]. exact Ht.
  - rewrite andb_true_r. reflexivity.
Qed.

Lemma map_after_step q qc seen c :
  map_after q qc seen →
  map_after q
    (if replaces q seen c then delete (remove_first ":"%char c) qc else qc)
    (seen ++ [c]).
Proof.
  intros Hinv k. unfold replaces.
  destruct (starts_with_colon c) eqn:Hc; cbn [andb].
  - pose proof (starts_with_colon_inv c Hc) as Hck.
    set (key := remove_first ":"%char c) in *.
    destruct (decide (k = key)) as [->|Hne].
    + assert (Hin : bool_decide (String ":" key ∈ seen ++ [c]) = true).
      { apply bool_decide_eq_true. rewrite <- Hck.
        apply elem_of_app. right. left. }
      rewrite Hin. cbn [andb].
      destruct (truthy (js_get q key)) eqn:Ht; cbn [andb].
      * destruct (bool_decide (c ∈ seen)) eqn:Hs; cbn [negb].
        -- rewrite (Hinv key), <- Hck, Hs, Ht. reflexivity.
        -- apply lookup_delete_eq.
      * rewrite (Hinv key), Ht, andb_false_r. reflexivity.
    + assert (Hin : bool_decide (String ":" k ∈ seen ++ [c])
                    = bool_decide (String ":" k ∈ seen)).
      { apply bool_decide_ext. rewrite elem_of_app, list_elem_of_singleton.
        split; [|auto]. intros [H|H]; [exact H|].
        exfalso. apply Hne. rewrite Hck in H. injection H as H. exact H. }
      rewrite Hin.
      destruct (truthy (js_get q key) && negb (bool_decide (c ∈ seen))).
      * rewrite lookup_delete_ne by congruence. apply Hinv.
      * apply Hinv.
  - assert (Hin : bool_decide (String ":" k ∈ seen ++ [c])
                  = bool_decide (String ":" k ∈ seen)).
    { apply bool_decide_ext. rewrite elem_of_app, list_elem_of_singleton.
      split; [|auto]. intros [H|H]; [exact H|].
      subst c. cbn in Hc. discriminate. }
    rewrite Hin. apply Hinv.
Qed.

Lemma mapComponents_spec q cs :
  ∀ seen ms qc,
    map_after q qc seen →
    ∃ q', mapComponents cs (ms, qc)
          = (resolve q seen cs, (ms ++ consumed q seen cs, q'))
          ∧ map_after q q' (seen ++ cs).
Proof.
  induction cs as [|c cs IH]; intros seen ms qc Hinv.
  - exists qc. cbn. rewrite !app_nil_r. auto.
  - cbn [mapComponents resolve consumed]. unfold transformComponent.
    pose proof (map_after_step q qc seen c Hinv) as Hstep.
    assert (Htest : starts_with_colon c
                    && truthy (js_get qc (remove_first ":"%char c))
                    = replaces q seen c).
    { unfold replaces. destruct (starts_with_colon c) eqn:Hc; [|reflexivity].
      cbn [andb]. apply map_after_get; assumption. }
    rewrite Htest.
    destruct (replaces q seen c) eqn:Hr.
    + destruct (IH (seen ++ [c]) (ms ++ [remove_first ":"%char c]) _ Hstep)
        as (q' & Heq & Hq').
      exists q'. rewrite Heq. rewrite <- !app_assoc in *. cbn [app] in *.
      split; [|exact Hq'].
      assert (Hv : js_get qc (remove_first ":"%char c)
                   = js_get q (remove_first ":"%char c)).
      { unfold replaces in Hr. apply andb_true_iff in Hr as [Hr Hs].
        apply andb_true_iff in Hr as [Hc Ht].
        unfold js_get at 1. rewrite (Hinv _).
        rewrite <- (starts_with_colon_inv c Hc).
        apply negb_true_iff in Hs. rewrite Hs. reflexivity. }
      rewrite Hv. reflexivity.
    + destruct (IH (seen ++ [c]) ms _ Hstep) as (q' & Heq & Hq').
      exists q'. rewrite Heq. rewrite <- !app_assoc in *. cbn [app] in *.
      auto.
Qed.

Lemma map_after_start q : map_after q q [].
Proof. intros k. rewrite bool_decide_eq_false_2; [reflexivity|]. inversion 1. Qed.

(** [transformPathParams] in terms of the per-segment reading. *)
Lemma transformPathParams_spec url q :
  ∃ q', transformPathParams url q
        = (join "/" (resolve q [] (split_on "/"%char url)),
           consumed q [] (split_on "/"%char url), q')
        ∧ map_after q q' (split_on "/"%char url).
Proof.
  unfold transformPathParams.
  destruct (mapComponents_spec q (split_on "/"%char url) [] [] q
              (map_after_start q)) as (q' & Heq & Hq').
  exists q'. rewrite Heq. auto.
Qed.


Lemma lookup_resolve q cs :
  ∀ seen (i : nat) c,
    cs !! i = Some c →
    resolve q seen cs !! i
    = Some (if replaces q (seen ++ take i cs) c
            then to_string (js_get q (remove_first ":"%char c)) else c).
Proof.
  induction cs as [|c0 cs IH]; intros seen i c Hi; [discriminate|].
  destruct i as [|i]; cbn in *.
  - injection Hi as ->. rewrite app_nil_r. reflexivity.
  - rewrite (IH _ _ _ Hi). rewrite <- app_assoc. reflexivity.
Qed.

Lemma elem_of_consumed q cs :
  ∀ seen k,
    k ∈ consumed q seen cs ↔
    ∃ (i : nat) c, cs !! i = Some c
                   ∧ replaces q (seen ++ take i cs) c = true
                   ∧ k = remove_first ":"%char c.
Proof.
  induction cs as [|c0 cs IH]; intros seen k.
  - cbn. split; [inversion 1|]. intros (i & c & Hi & _). discriminate.
  - cbn [consumed]. split.
    + intros Hin.
      destruct (replaces q seen c0) eqn:Hr.
      * apply elem_of_cons in Hin as [->|Hin].
        -- exists 0%nat, c0. cbn. rewrite app_nil_r. auto.
        -- apply IH in Hin as (i & c & Hi & Hrep & Hk).
           exists (S i), c. cbn. rewrite <- app_assoc in Hrep. auto.
      * apply IH in Hin as (i & c & Hi & Hrep & Hk).
        exists (S i), c. cbn. rewrite <- app_assoc in Hrep. auto.
    + intros (i & c & Hi & Hrep & Hk). destruct i as [|i]; cbn in *.
      * injection Hi as ->. rewrite app_nil_r in Hrep. rewrite Hrep, Hk. left.
      * assert (Hin : k ∈ consumed q (seen ++ [c0]) cs).
        { apply IH. exists i, c. rewrite <- app_assoc. auto. }
        destruct (replaces q seen c0); [right|]; exact Hin.
Qed.

Lemma replaces_inv q seen c :
  replaces q seen c = true →
  c = String ":" (remove_first ":"%char c)
  ∧ truthy (js_get q (remove_first ":"%char c)) = true
  ∧ c ∉ seen.
Proof.
  unfold replaces. intros H. apply andb_true_iff in H as [H Hs].
  apply andb_true_iff in H as [Hc Ht].
  split; [apply starts_with_colon_inv, Hc|]. split; [exact Ht|].
  apply negb_true_iff, bool_decide_eq_false in Hs. exact Hs.
Qed.

Lemma consumed_inv q cs seen k :
  k ∈ consumed q seen cs →
  String ":" k ∈ cs ∧ (String ":" k ∉ seen) ∧ truthy (js_get q k) = true.
Proof.
  intros Hin. apply elem_of_consumed in Hin as (i & c & Hi & Hrep & ->).
  apply replaces_inv in Hrep as (Hc & Ht & Hs). rewrite <- Hc.
  split; [eapply list_elem_of_lookup_2; exact Hi|]. split; [|exact Ht].
  intros Hin. apply Hs. apply elem_of_app. left. exact Hin.
Qed.



Lemma elem_of_consumed_iff q cs k :
  k ∈ consumed q [] cs ↔ String ":" k ∈ cs ∧ truthy (js_get q k) = true.
Proof.
  split.
  - intros Hin. apply consumed_inv in Hin as (H1 & _ & H2). auto.
  - intros [Hin Ht]. induction cs as [|c cs IH] using rev_ind.
    + inversion Hin.
    + destruct (decide (String ":" k ∈ cs)) as [Hcs|Hcs].
      * apply IH in Hcs. apply elem_of_consumed in Hcs as (i & c' & Hi & Hr & Hk).
        apply elem_of_consumed. exists i, c'.
        pose proof (lookup_lt_Some _ _ _ Hi) as Hlt.
        rewrite lookup_app_l by exact Hlt.
        rewrite take_app_le by lia. auto.
      * apply elem_of_app in Hin as [Hin|Hin]; [contradiction|].
        apply list_elem_of_singleton in Hin. subst c.
        apply elem_of_consumed. exists (length cs), (String ":" k).
        rewrite lookup_app_r by lia. rewrite Nat.sub_diag.
        split; [reflexivity|]. split; [|reflexivity].
        rewrite take_app_length. cbn [app].
        unfold replaces. cbn. rewrite Ht.
        rewrite bool_decide_eq_false_2 by exact Hcs. reflexivity.
Qed.




Lemma mapComponents_outs q cs :
  (mapComponents cs ([], q)).1 = resolve q [] cs.
Proof.
  destruct (mapComponents_spec q cs [] [] q (map_after_start q))
    as (q' & Heq & _).
  rewrite Heq. reflexivity.
Qed.


Lemma lookup_after q q' cs k :
  map_after q q' cs →
  q' !! k = if bool_decide (k ∈ consumed q [] cs) then None else q !! k.
Proof.
  intros Hafter. rewrite (Hafter k).
  destruct (bool_decide (String ":" k ∈ cs)) eqn:Hin;
    destruct (truthy (js_get q k)) eqn:Ht; cbn [andb].
  - rewrite bool_decide_eq_true_2; [reflexivity|].
    apply elem_of_consumed_iff. apply bool_decide_eq_true in Hin. auto.
  - rewrite bool_decide_eq_false_2; [reflexivity|].
    rewrite elem_of_consumed_iff. intros [_ H]. congruence.
  - rewrite bool_decide_eq_false_2; [reflexivity|].
    rewrite elem_of_consumed_iff. apply bool_decide_eq_false in Hin.
    intros [H _]. contradiction.
  - rewrite bool_decide_eq_false_2; [reflexivity|].
    rewrite elem_of_consumed_iff. intros [_ H]. congruence.
Qed.



(** ** Falsy values *)

(** C10. A template [:name] is substituted only when the value of [name]
    is truthy. When the key is present with a falsy value, every
    component [:name] is left in its literal form, the key is not
    deleted (the map still holds its value) and [name] is not recorded
    among the consumed keys. *)
Theorem falsy_value_not_substituted (url : string)
    (q : gmap string JsValue) (name : string) (v : JsValue) :
  q !! name = Some v →
  truthy v = false →
  (∀ (i : nat),
     split_on "/"%char url !! i = Some (String ":" name) →
     (mapComponents (split_on "/"%char url) ([], q)).1 !! i
     = Some (String ":" name))
  ∧ (name ∉ (transformPathParams url q).1.2)
  ∧ (transformPathParams url q).2 !! name = Some v.
Proof.
  intros Hq Hv.
  assert (Ht : truthy (js_get q name) = false).
  { unfold js_get. rewrite Hq. exact Hv. }
  rewrite mapComponents_outs.
  destruct (transformPathParams_spec url q) as (q' & Heq & Hafter).
  rewrite Heq. cbn [fst snd].
  assert (Hnot : name ∉ consumed q [] (split_on "/"%char url)).
  { rewrite elem_of_consumed_iff. intros [_ H]. congruence. }
  split; [|split].
  - intros i Hi. rewrite (lookup_resolve q _ [] i _ Hi).
    unfold replaces. cbn. rewrite Ht. reflexivity.
  - exact Hnot.
  - rewrite (lookup_after q q' _ name Hafter).
    rewrite bool_decide_eq_false_2 by exact Hnot. exact Hq.
Qed.

(** The theorem at [/users/:id] with the payload [{id: ""}]. *)
Lemma falsy_value_not_substituted_witness :
  (∀ (i : nat),
     split_on "/"%char "/users/:id" !! i = Some ":id" →
     (mapComponents (split_on "/"%char "/users/:id")
        ([], {[ "id" := JStr "" ]})).1 !! i = Some ":id")
  ∧ ("id" ∉ (transformPathParams "/users/:id" {[ "id" := JStr "" ]}).1.2)
  ∧ (transformPathParams "/users/:id" {[ "id" := JStr "" ]}).2 !! "id"
    = Some (JStr "").
Proof.
  apply (falsy_value_not_substituted "/users/:id" {[ "id" := JStr "" ]}
           "id" (JStr "")); reflexivity.
Defined.

Example falsy_values_kept :
  transformPathParams "/users/:id" {[ "id" := JStr "" ]}
    = ("/users/:id", [], {[ "id" := JStr "" ]})
  ∧ transformPathParams "/users/:id" {[ "id" := JNum 0 ]}
    = ("/users/:id", [], {[ "id" := JNum 0 ]})
  ∧ transformPathParams "/users/:id" {[ "id" := JBool false ]}
    = ("/users/:id", [], {[ "id" := JBool false ]})
  ∧ transformPathParams "/users/:id" {[ "id" := JNull ]}
    = ("/users/:id", [], {[ "id" := JNull ]}).
Proof. repeat split; vm_compute; reflexivity. Qed.

(** ** The success path *)

(** C7 (amended). On the success path (accepted status, no veto of the
    [success] hooks) the [success] callbacks are dispatched first, with
    the response text and the [RequestReturn], and then the [finally]
    callbacks, with the descriptor; both dispatches are filtered by the
    method of the request: an entry is called exactly when it has no
    method filter or its filter is the method of the request. *)
Theorem success_then_finally_by_method
    (JSON_parse : string → option Json) (handleResponse : Response → string)
    (responseCode : Z → bool) (runAll : bool) (f : Frame)
    (response : Response) (w : World) :
  responseCode (resp_status response) = true →
  (runHooks runAll (hooks_success (cfg_hooks (req_config (request w))))
     [PReturn (requestReturn JSON_parse f response (handleResponse response));
      PRequest (view w)]).1 = true →
  since w (onFulfilled JSON_parse handleResponse responseCode runAll
                       f response w)
  = (runHooks runAll (hooks_success (cfg_hooks (req_config (request w))))
       [PReturn (requestReturn JSON_parse f response (handleResponse response));
        PRequest (view w)]).2
    ++ (call_of [PText (handleResponse response);
                 PReturn (requestReturn JSON_parse f response
                                        (handleResponse response))] <$>
          List.filter (fires (Some (fr_method f)))
                      (cb_success (req_callback (request w))))
    ++ (call_of [PRequest (view w)] <$>
          List.filter (fires (Some (fr_method f)))
                      (cb_finally (req_callback (request w))))
  ∧ (∀ c, fires (Some (fr_method f)) c = true
          ↔ method c = None ∨ method c = Some (fr_method f)).
Proof.
  intros Hcode Hok. split; [|intros c; apply fires_iff].
  apply since_app. unfold onFulfilled. rewrite Hcode. cbn [negb].
  rewrite run_hooks_eq, Hok. cbn [negb].
  rewrite trace_dispatch, callback_dispatch, view_dispatch, trace_dispatch.
  cbn [emit request req_callback trace set_request].
  rewrite get_put_other by discriminate. cbn [get_callbacks].
  rewrite <- !app_assoc. reflexivity.
Qed.

(** The theorem at a successful [GET]: the [success] entry, then the
    [finally] entry without a filter; the one filtered on [POST] is not
    called. *)
Lemma success_then_finally_by_method_witness :
  since filtered_finally_world
    (onFulfilled read_json resp_text status_2xx false
       (mkFrame GET "/users" None (QObject 0%nat)) ok_response
       filtered_finally_world)
  = [EvCallback 20
       [PText "[1, 2]";
        PReturn (requestReturn read_json
                   (mkFrame GET "/users" None (QObject 0%nat))
                   ok_response "[1, 2]")];
     EvCallback 21 [PRequest (view filtered_finally_world)]].
Proof.
  exact (proj1 (success_then_finally_by_method read_json resp_text status_2xx
                  false (mkFrame GET "/users" None (QObject 0%nat))
                  ok_response filtered_finally_world
                  eq_refl eq_refl)).
Defined.

(** C7, as stated, fails: on a successful [GET] a [finally] entry
    filtered on [POST] is not called. *)
Lemma finally_filtered_on_success : ¬ finally_unfiltered_on_success.
Proof.
  intros H.
  specialize (H read_json resp_text status_2xx false
                (mkFrame GET "/users" None (QObject 0%nat))
                ok_response filtered_finally_world eq_refl eq_refl
                (mkCallback 22 false (Some POST))).
  assert (Hin : mkCallback 22 false (Some POST)
                ∈ cb_finally (req_callback (request filtered_finally_world))).
  { right. left. }
  specialize (H Hin). vm_compute in H.
  apply elem_of_cons in H as [H|H]; [discriminate|].
  apply list_elem_of_singleton in H. discriminate.
Qed.

(** ** A veto of the [failed] hook on a rejected status *)

(** On the bad status path a veto of the [failed] hooks delivers an
    artifact without the response. *)
Lemma bad_status_veto_failures (JSON_parse : string → option Json)
    (handleResponse : Response → string) (responseCode : Z → bool)
    (runAll : bool) (f : Frame) (response : Response) (w : World) :
  responseCode (resp_status response) = false →
  vetoed (runHooks runAll (hooks_failed (cfg_hooks (req_config (request w))))
            [PStatus (resp_status response); PRequest (view w)]).2 →
  ∀ fp, fp ∈ failures (since w (onFulfilled JSON_parse handleResponse
                                  responseCode runAll f response w)) →
        fp = veto_params failed None.
Proof.
  intros Hcode Hveto fp. apply vetoed_runHooks in Hveto.
  unfold onFulfilled. rewrite Hcode. cbn [negb].
  rewrite (since_app _ _ _ (trace_handleBadResponse runAll _ w)).
  cbn [requestReturn rr_status]. rewrite Hveto.
  rewrite failures_app, failures_runHooks, failures_failure_route.
  cbn [app]. intros Hin. apply elem_of_cons in Hin as [->|Hin]; [reflexivity|].
  apply elem_of_replicate in Hin as [-> _]. reflexivity.
Qed.

(** The sibling veto after a response, the one of the [success] hooks,
    delivers the [RequestReturn] in the artifact. *)
Lemma success_veto_carries_response (JSON_parse : string → option Json)
    (handleResponse : Response → string) (responseCode : Z → bool)
    (runAll : bool) (f : Frame) (response : Response) (w : World) :
  responseCode (resp_status response) = true →
  vetoed (runHooks runAll (hooks_success (cfg_hooks (req_config (request w))))
            [PReturn (requestReturn JSON_parse f response
                                    (handleResponse response));
             PRequest (view w)]).2 →
  ∀ fp, fp ∈ failures (since w (onFulfilled JSON_parse handleResponse
                                  responseCode runAll f response w)) →
        fp = veto_params success
               (Some (requestReturn JSON_parse f response
                                    (handleResponse response))).
Proof.
  intros Hcode Hveto fp. apply vetoed_runHooks in Hveto.
  unfold onFulfilled. rewrite Hcode. cbn [negb].
  rewrite run_hooks_eq, Hveto. cbn [negb].
  erewrite since_app; [|rewrite trace_hookFailed, failure_route_emit;
                        cbn [emit trace]; rewrite <- app_assoc; reflexivity].
  rewrite failures_app, failures_runHooks, failures_failure_route.
  cbn [app]. intros Hin. apply elem_of_cons in Hin as [->|Hin]; [reflexivity|].
  apply elem_of_replicate in Hin as [-> _]. reflexivity.
Qed.

(** C1 (the code at the failing input). The status 404 is rejected by the
    response code predicate and the [failed] hook vetoes: the
    [FailedParams] handed to the [failed] handler and to the [failed]
    callback has [response = null], although the [RequestReturn] had
    been assembled. *)
Theorem bad_status_veto_drops_response :
  failures (since failed_veto_world
              (onFulfilled read_json resp_text status_2xx false
                 (mkFrame GET "/users" None (QObject 0%nat)) not_found
                 failed_veto_world))
  = [veto_params failed None; veto_params failed None]
  ∧ fp_response (veto_params failed None) = None
  ∧ fp_intercept (veto_params failed None) = true
  ∧ fp_hook (veto_params failed None) = Some failed.
Proof. repeat split. Qed.

(** ** The response body *)

(** C8. [parse] raises on no input: it is a total function that returns
    the decoded value when [JSON.parse] succeeds and the input string
    itself, unchanged, when [JSON.parse] throws. In particular the input
    ["not json"], which is no JSON text, yields the string ["not json"]. *)
Theorem parse_falls_back_to_text (JSON_parse : string → option Json)
    (data : string) :
  (∀ j, JSON_parse data = Some j → parse JSON_parse data = Decoded j)
  ∧ (JSON_parse data = None → parse JSON_parse data = Text data)
  ∧ (parse JSON_parse data = Text data
     ∨ ∃ j, JSON_parse data = Some j ∧ parse JSON_parse data = Decoded j)
  ∧ (JSON_parse "not json" = None →
     parse JSON_parse "not json" = Text "not json")
  ∧ read_json "not json" = None
  ∧ parse read_json "not json" = Text "not json".
Proof.
  unfold parse. split; [|split; [|split; [|split; [|split]]]].
  - intros j ->. reflexivity.
  - intros ->. reflexivity.
  - destruct (JSON_parse data) as [j|]; [right; eauto|left; reflexivity].
  - intros ->. reflexivity.
  - reflexivity.
  - reflexivity.
Qed.

Example parse_decodes_json :
  parse read_json "[1, 2]" = Decoded (JsonArray [JsonNumber "1"; JsonNumber "2"])
  ∧ parse read_json "{ broken" = Text "{ broken".
Proof. split; reflexivity. Qed.

(** ** Debounce *)




(** The state after a successful [before] run, up to the built request:
    the store after path substitution and the request built. *)
Lemma passthrough_eq usp runAll f w :
  let hooks := cfg_hooks (req_config (request w)) in
  let run := runHooks runAll (hooks_before hooks) [PRequest (view w)] in
  let w1 := emit run.2 w in
  let l := req_data (request w) in
  let tr := transformPathParams (fr_url f) (obj_at (store w) l) in
  let d' := foldl (λ o k, delete k o) tr.2 tr.1.2 in
  let h2 := <[l := d']> (store w) in
  let aq := addQuery usp tr.1.1 (fr_query f) None h2 in
  let rq := mkRequest aq.1.1 (fr_method f) (cfg_headers (req_config (request w)))
              (match fr_body f with
               | Some b => Some (obj_at aq.2 b)
               | None => None
               end) in
  let w4 := set_request (set_built rq (request w1)) (set_store aq.2 w1) in
  let run' := runHooks runAll (hooks_init hooks) [PRequest (view w4)] in
  passthrough usp runAll f w
  = if run.1
    then if run'.1
         then emit [EvFetch rq] (emit run'.2 w4)
         else hookFailed init None (emit run'.2 w4)
    else hookFailed before None w1.
Proof.
  cbn zeta. unfold passthrough. rewrite run_hooks_eq.
  destruct (runHooks runAll _ _).1; cbn [negb]; [|reflexivity].
  cbn [emit request store req_data].
  destruct (transformPathParams _ _) as [[url1 keys] d]. cbn [fst snd].
  cbn [set_store store request].
  destruct (addQuery _ _ _ _ _) as [[url' pm] h]. cbn [fst snd].
  rewrite run_hooks_eq.
  destruct (runHooks runAll _ _).1; reflexivity.
Qed.

Lemma frame_passthrough usp runAll f w :
  timers (passthrough usp runAll f w) = timers w
  ∧ now (passthrough usp runAll f w) = now w
  ∧ next_handle (passthrough usp runAll f w) = next_handle w
  ∧ req_wait (request (passthrough usp runAll f w)) = req_wait (request w)
  ∧ req_config (request (passthrough usp runAll f w)) = req_config (request w).
Proof.
  rewrite passthrough_eq. cbn zeta.
  destruct (runHooks runAll _ _).1.
  - destruct (runHooks runAll _ _).1.
    + cbn. repeat split.
    + match goal with
      | |- context [hookFailed ?k ?r ?w] =>
          destruct (frame_hookFailed k r w)
            as (_ & -> & -> & -> & _ & _ & -> & -> & _)
      end.
      cbn. repeat split.
  - match goal with
    | |- context [hookFailed ?k ?r ?w] =>
        destruct (frame_hookFailed k r w)
          as (_ & -> & -> & -> & _ & _ & -> & -> & _)
    end.
    cbn. repeat split.
Qed.

Lemma addQuery_store usp url query h :
  (addQuery usp url query None h).2 = h.
Proof.
  unfold addQuery. destruct (transformPathParams _ _) as [[url1 pm] m'].
  destruct (query_unusable h query); reflexivity.
Qed.

Lemma foldl_delete_absent (keys : list string) (m : gmap string JsValue) :
  (∀ k, k ∈ keys → m !! k = None) →
  foldl (λ o k, delete k o) m keys = m.
Proof.
  induction keys as [|k keys IH]; intros Habs; [reflexivity|].
  cbn [foldl]. rewrite delete_id by (apply Habs; left).
  apply IH. intros k' Hk'. apply Habs. right. exact Hk'.
Qed.

(** The keys [transformPathParams] returns are gone from the map it
    leaves, so the [delete] loop of [passthrough] changes nothing. *)
Lemma consumed_keys_deleted url q :
  foldl (λ o k, delete k o) (transformPathParams url q).2
        (transformPathParams url q).1.2
  = (transformPathParams url q).2.
Proof.
  destruct (transformPathParams_spec url q) as (q' & Heq & Hafter).
  rewrite Heq. cbn [fst snd]. apply foldl_delete_absent.
  intros k Hk. rewrite (lookup_after q q' _ k Hafter).
  rewrite bool_decide_eq_true_2 by exact Hk. reflexivity.
Qed.







Lemma obj_at_assign payload w :
  obj_at (store (assign_data payload w))
         (req_data (request (assign_data payload w))) = payload.
Proof.
  unfold assign_data, obj_at. cbn. rewrite lookup_insert_eq. reflexivity.
Qed.








Lemma vetoed_app_inv evs1 evs2 :
  vetoed (evs1 ++ evs2) → vetoed evs1 ∨ vetoed evs2.
Proof.
  intros (id & p & Hin). apply elem_of_app in Hin as [Hin|Hin];
    [left|right]; exists id, p; exact Hin.
Qed.





(** The burst of the three calls, run: one request, with the payload of
    the third call. *)
Example debounce_three_calls :
  fetches (since debounced_world
             (advance plain_toString false 70
                (send_all plain_toString false [call1; call2; call3]
                          debounced_world)))
  = [mkRequest "/items" POST [] (Some {[ "n" := JNum 3 ]})]
  ∧ fetches (since debounced_world
               (send_all plain_toString false [call1; call2; call3]
                         debounced_world)) = [].
Proof. split; vm_compute; reflexivity. Qed.

(** Without [wait] each call is executed at once: three requests. *)
Example undebounced_three_calls :
  fetches (since (fresh_world "/items" ∅ (mkConfig [] QNull None no_hooks)
                              plain_callbacks)
             (send_all plain_toString false [call1; call2; call3]
                (fresh_world "/items" ∅ (mkConfig [] QNull None no_hooks)
                             plain_callbacks)))
  = [mkRequest "/items" POST [] (Some {[ "n" := JNum 1 ]});
     mkRequest "/items" POST [] (Some {[ "n" := JNum 2 ]});
     mkRequest "/items" POST [] (Some {[ "n" := JNum 3 ]})].
Proof. vm_compute. reflexivity. Qed.

(** The scenario of a [GET] with a path parameter: the key consumed by
    the path is not in the query string. *)
Example get_users_7 :
  fetches (since (fresh_world "/users/:id" ∅ (mkConfig [] QNull None no_hooks)
                              plain_callbacks)
             (send_all plain_toString false
                [mkCall 0 (<["id" := JStr "7"]> {[ "active" := JBool true ]})
                        GET "/users/:id"]
                (fresh_world "/users/:id" ∅ (mkConfig [] QNull None no_hooks)
                             plain_callbacks)))
  = [mkRequest "/users/7?active=true" GET [] None].
Proof. vm_compute. reflexivity. Qed.

(** [addQuery] as [lib.ts] has it, called on its own with the payload as
    the query: the path is resolved on a copy of the query, so the query
    string still lists the key the path consumed. In [passthrough] the
    path is resolved on the payload itself before [addQuery] is called
    (the example above). *)
Example addQuery_on_its_own :
  (addQuery plain_toString "/users/:id" (QObject 0%nat) None
     {[ 0%nat := <["id" := JStr "7"]> {[ "active" := JBool true ]} ]}).1
  = ("/users/7?id=7&active=true", ["id"]).
Proof. vm_compute. reflexivity. Qed.

(** * Further properties of the code *)

(** ** Resolving a template twice *)



(** ** String queries *)









Example string_query_pairs :
  queryToUrlParams ∅ (QString "?a=1&b=2&a=3&c")
  = [("a", "3"); ("b", "2"); ("c", "undefined")].
Proof. reflexivity. Qed.

(** ** [addQuery] and the objects it is given *)

Lemma store_addQuery usp url query body h :
  (addQuery usp url query body h).2
  = match body with
    | Some b =>
        <[b := (transformPathParams url
                  (own_props h query ∪ obj_at h b)).2]> h
    | None => h
    end.
Proof.
  unfold addQuery.
  destruct body as [b|];
    destruct (transformPathParams _ _) as [[url1 pm] m'];
    match goal with |- context [query_unusable ?a ?q] =>
      destruct (query_unusable a q) end; reflexivity.
Qed.

(** X3. [addQuery] writes to the [body] object only. Given a body, it
    leaves in it the merge of the query over the body (a key of both
    takes the value of the query) without the keys the path consumed;
    every other object, the query object included unless it is the body
    itself, is left as it was. Without a body nothing is written. *)
Theorem addQuery_writes_body_only
    (usp_toString : list (string * string) → string) (url : string)
    (query : Query) (body : option loc) (h : gmap nat (gmap string JsValue)) :
  (∀ l, body ≠ Some l →
        obj_at (addQuery usp_toString url query body h).2 l = obj_at h l)
  ∧ (body = None → (addQuery usp_toString url query body h).2 = h)
  ∧ (∀ b, body = Some b →
       ∀ k, obj_at (addQuery usp_toString url query body h).2 b !! k
            = if bool_decide
                   (k ∈ (transformPathParams url
                           (own_props h query ∪ obj_at h b)).1.2)
              then None
              else match own_props h query !! k with
                   | Some v => Some v
                   | None => obj_at h b !! k
                   end).
Proof.
  rewrite store_addQuery. split; [|split].
  - intros l Hl. destruct body as [b|]; [|reflexivity].
    unfold obj_at. rewrite lookup_insert_ne; [reflexivity|]. congruence.
  - intros ->. reflexivity.
  - intros b -> k.
    destruct (transformPathParams_spec url (own_props h query ∪ obj_at h b))
      as (q' & Heq & Hafter).
    rewrite Heq. cbn [fst snd].
    assert (Hb : obj_at (<[b := q']> h) b = q').
    { unfold obj_at. rewrite lookup_insert_eq. reflexivity. }
    rewrite Hb, (lookup_after _ q' _ k Hafter).
    destruct (bool_decide _); [reflexivity|].
    rewrite lookup_union.
    destruct (own_props h query !! k), (obj_at h b !! k); reflexivity.
Qed.




(** ** What [runAll] changes *)

Lemma upto_first_veto_prefix params (hs : list RequestHook) :
  upto_first_veto params hs `prefix_of` hs.
Proof.
  induction hs as [|h hs IH]; cbn [upto_first_veto]; [reflexivity|].
  destruct (hook_fn h params).
  - apply prefix_cons, IH.
  - exists hs. reflexivity.
Qed.

(** X5. The [runAll] flag never changes the answer of [runHooks], only
    the hooks that are called: the calls made with [runAll] off are the
    first calls made with [runAll] on, in the same order, and the answer
    is the same. *)
Theorem runHooks_runAll_same_answer (hooks : HookSet) (params : list Param) :
  (runHooks false hooks params).1 = (runHooks true hooks params).1
  ∧ (runHooks false hooks params).2 `prefix_of` (runHooks true hooks params).2
  ∧ ((runHooks true hooks params).1 = true →
     (runHooks false hooks params).2 = (runHooks true hooks params).2).
Proof.
  destruct hooks as [|h|hs]; cbn [runHooks].
  - repeat split; reflexivity.
  - repeat split; reflexivity.
  - rewrite !runHookList_spec. cbn [fst snd andb]. split; [reflexivity|].
    split.
    + destruct (upto_first_veto_prefix params hs) as [k Hk].
      exists (hook_call params <$> k). rewrite <- fmap_app, <- Hk.
      reflexivity.
    + intros Hall. rewrite upto_first_veto_all; [reflexivity|].
      intros h Hh. rewrite forallb_forall in Hall. apply Hall.
      apply list_elem_of_In, Hh.
Qed.

(** ** Dispatching twice *)

Lemma filter_filter_same {A} (f : A → bool) (l : list A) :
  List.filter f (List.filter f l) = List.filter f l.
Proof.
  induction l as [|x l IH]; [reflexivity|]. cbn [List.filter].
  destruct (f x) eqn:Hx; [|exact IH]. cbn [List.filter]. rewrite Hx, IH.
  reflexivity.
Qed.

Lemma filter_filter_and {A} (f g : A → bool) (l : list A) :
  List.filter f (List.filter g l) = List.filter (λ x, f x && g x) l.
Proof.
  induction l as [|x l IH]; [reflexivity|]. cbn [List.filter].
  destruct (g x); cbn [List.filter].
  - rewrite andb_true_r. destruct (f x); rewrite IH; reflexivity.
  - rewrite andb_false_r. exact IH.
Qed.

Lemma length_filter_split {A} (f : A → bool) (l : list A) :
  length l
  = (length (List.filter f l) + length (List.filter (λ x, negb (f x)) l))%nat.
Proof.
  induction l as [|x l IH]; [reflexivity|]. cbn [List.filter].
  destruct (f x); cbn [negb length]; lia.
Qed.

(** X6. A dispatch consumes its [once] entries for good. After a
    dispatch with method [m], a second dispatch with the same method
    leaves the list as it is and calls exactly the entries that fired
    the first time and are not [once]; and the entries the first
    dispatch removed are as many as the [once] entries it called. *)
Theorem matchCallback_second_dispatch (callback : list CallbackObject)
    (params params' : list Param) (m : option RequestMethod) :
  let left := (matchCallback callback params m).1 in
  (matchCallback left params' m).1 = left
  ∧ (matchCallback left params' m).2
    = call_of params' <$>
        List.filter (λ c, fires m c && negb (once c)) callback
  ∧ length callback
    = (length left
       + length (List.filter (λ c, fires m c && once c) callback))%nat.
Proof.
  cbn zeta. rewrite !matchCallback_spec. cbn [fst snd].
  split; [apply filter_filter_same|]. split.
  - f_equal. rewrite filter_filter_and. apply List.filter_ext.
    intros c. unfold stays. destruct (fires m c), (once c); reflexivity.
  - rewrite (length_filter_split (stays m) callback). f_equal. f_equal.
    apply List.filter_ext. intros c. unfold stays.
    rewrite negb_involutive. reflexivity.
Qed.

(** ** The response handlers *)





Lemma same_frame_hookFailed hook response w :
  same_frame w (hookFailed hook response w).
Proof. apply frame_hookFailed. Qed.




(** The events of the [then] handler, branch by branch. *)
Lemma trace_onFulfilled JSON_parse handleResponse responseCode runAll
    f response w :
  let rr := requestReturn JSON_parse f response (handleResponse response) in
  let hooks := cfg_hooks (req_config (request w)) in
  let ok := runHooks runAll (hooks_success hooks)
                     [PReturn rr; PRequest (view w)] in
  let bad := runHooks runAll (hooks_failed hooks)
                      [PStatus (resp_status response); PRequest (view w)] in
  trace (onFulfilled JSON_parse handleResponse responseCode runAll
                     f response w)
  = trace w
    ++ (if responseCode (resp_status response)
        then ok.2
             ++ (if ok.1
                 then (call_of [PText (handleResponse response); PReturn rr] <$>
                         List.filter (fires (Some (fr_method f)))
                                     (cb_success (req_callback (request w))))
                      ++ (call_of [PRequest (view w)] <$>
                            List.filter (fires (Some (fr_method f)))
                                        (cb_finally (req_callback (request w))))
                 else failure_route (veto_params success (Some rr)) w)
        else bad.2
             ++ failure_route
                  (if bad.1
                   then mkFailedParams (ErrStatus (resp_status response))
                                       false None (Some rr)
                   else veto_params failed None) w).
Proof.
  cbn zeta. unfold onFulfilled. destruct (responseCode _); cbn [negb].
  - rewrite run_hooks_eq. destruct (runHooks _ _ _).1; cbn [negb].
    + rewrite trace_dispatch, callback_dispatch, view_dispatch, trace_dispatch.
      cbn [emit request req_callback trace set_request].
      rewrite get_put_other by discriminate. cbn [get_callbacks].
      rewrite <- !app_assoc. reflexivity.
    + rewrite trace_hookFailed, failure_route_emit. cbn [emit trace].
      rewrite <- app_assoc. reflexivity.
  - rewrite trace_handleBadResponse. reflexivity.
Qed.


(** X8. A response whose status the response code predicate rejects,
    when no [failed] hook vetoes: the [success] hooks are not run and
    the [success] callbacks are neither called nor consumed; the
    [failed] handler and the [failed] callbacks receive the artifact
    with [error] the status code, [intercept = false], [hook = null] and
    the assembled [RequestReturn] as [response]; then the [finally]
    callbacks receive the descriptor. Only entries without a method
    filter are called. *)
Theorem rejected_status_route (JSON_parse : string → option Json)
    (handleResponse : Response → string) (responseCode : Z → bool)
    (runAll : bool) (f : Frame) (response : Response) (w : World) :
  responseCode (resp_status response) = false →
  (runHooks runAll (hooks_failed (cfg_hooks (req_config (request w))))
     [PStatus (resp_status response); PRequest (view w)]).1 = true →
  let w' := onFulfilled JSON_parse handleResponse responseCode runAll
                        f response w in
  let fp := mkFailedParams
              (ErrStatus (resp_status response)) false None
              (Some (requestReturn JSON_parse f response
                                   (handleResponse response))) in
  since w w'
  = (runHooks runAll (hooks_failed (cfg_hooks (req_config (request w))))
       [PStatus (resp_status response); PRequest (view w)]).2
    ++ [EvFailedHandler fp]
    ++ (call_of [PFailed fp] <$>
          List.filter unfiltered (cb_failed (req_callback (request w))))
    ++ (call_of [PRequest (view w)] <$>
          List.filter unfiltered (cb_finally (req_callback (request w))))
  ∧ cb_success (req_callback (request w'))
    = cb_success (req_callback (request w)).
Proof.
  intros Hcode Hok. cbn zeta. split.
  - apply since_app. rewrite trace_onFulfilled. cbn zeta.
    rewrite Hcode, Hok. reflexivity.
  - unfold onFulfilled. rewrite Hcode. cbn [negb].
    unfold handleBadResponse. rewrite run_hooks_eq.
    cbn [requestReturn rr_status]. rewrite Hok. cbn [negb].
    rewrite !callback_dispatch. reflexivity.
Qed.

(** The theorem at a 503 response: the [success] entry, registered
    once, is still there and only the two entries without a filter are
    called. *)
Lemma rejected_status_route_witness :
  since mixed_callbacks_world
    (onFulfilled read_json resp_text status_2xx false
       (mkFrame GET "/users" None (QObject 0%nat)) unavailable
       mixed_callbacks_world)
  = [EvFailedHandler
       (mkFailedParams (ErrStatus 503) false None
          (Some (requestReturn read_json
                   (mkFrame GET "/users" None (QObject 0%nat))
                   unavailable "busy")));
     EvCallback 31
       [PFailed
          (mkFailedParams (ErrStatus 503) false None
             (Some (requestReturn read_json
                      (mkFrame GET "/users" None (QObject 0%nat))
                      unavailable "busy")))];
     EvCallback 33 [PRequest (view mixed_callbacks_world)]]
  ∧ cb_success
      (req_callback
         (request
            (onFulfilled read_json resp_text status_2xx false
               (mkFrame GET "/users" None (QObject 0%nat)) unavailable
               mixed_callbacks_world)))
    = [mkCallback 30 true None].
Proof.
  exact (rejected_status_route read_json resp_text status_2xx false
           (mkFrame GET "/users" None (QObject 0%nat)) unavailable
           mixed_callbacks_world eq_refl eq_refl).
Defined.

(** X9. A rejected transport (the [catch] handler). The [failed] hooks
    are run with the error. If none vetoes, the artifact has the error,
    [intercept = false], [hook = null] and [response = null], and the
    [failed] and [finally] callbacks are dispatched with the method of
    the request: an entry filtered on that method is called, unlike on
    the rejected status path. If a hook vetoes, the route is the one of
    a veto, with [hook = "failed"]. In both cases the [success]
    callbacks are left alone. *)
Theorem network_error_route (runAll : bool) (f : Frame) (error : string)
    (w : World) :
  let run := runHooks runAll (hooks_failed (cfg_hooks (req_config (request w))))
                      [PError error; PRequest (view w)] in
  let fp := mkFailedParams (ErrError error) false None None in
  let w' := onRejected runAll f error w in
  since w w'
  = run.2
    ++ (if run.1
        then [EvFailedHandler fp]
             ++ (call_of [PFailed fp] <$>
                   List.filter
                     (λ c, bool_decide (method c = None
                                        ∨ method c = Some (fr_method f)))
                     (cb_failed (req_callback (request w))))
             ++ (call_of [PRequest (view w)] <$>
                   List.filter
                     (λ c, bool_decide (method c = None
                                        ∨ method c = Some (fr_method f)))
                     (cb_finally (req_callback (request w))))
        else [EvFailedHandler (veto_params failed None)]
             ++ (call_of [PFailed (veto_params failed None)] <$>
                   List.filter unfiltered
                               (cb_failed (req_callback (request w))))
             ++ (call_of [PRequest (view w)] <$>
                   List.filter unfiltered
                               (cb_finally (req_callback (request w)))))
  ∧ cb_success (req_callback (request w'))
    = cb_success (req_callback (request w)).
Proof.
  cbn zeta. split.
  - apply since_app. rewrite trace_onRejected. cbn zeta.
    destruct (runHooks _ _ _).1; [|reflexivity].
    assert (Hext : ∀ l : list CallbackObject,
               List.filter (fires (Some (fr_method f))) l
               = List.filter
                   (λ c, bool_decide (method c = None
                                      ∨ method c = Some (fr_method f))) l).
    { intros l. apply List.filter_ext. intros c.
      destruct (fires (Some (fr_method f)) c) eqn:Hf.
      - symmetry. apply bool_decide_eq_true, fires_iff, Hf.
      - symmetry. apply bool_decide_eq_false. rewrite <- fires_iff.
        congruence. }
    rewrite !Hext. reflexivity.
  - unfold onRejected. rewrite run_hooks_eq.
    destruct (runHooks _ _ _).1; cbn [negb].
    + rewrite !callback_dispatch. reflexivity.
    + rewrite callback_hookFailed. reflexivity.
Qed.

Example network_error_calls_filtered_entries :
  since mixed_callbacks_world
    (onRejected false (mkFrame GET "/users" None (QObject 0%nat))
                "offline" mixed_callbacks_world)
  = [EvFailedHandler (mkFailedParams (ErrError "offline") false None None);
     EvCallback 31
       [PFailed (mkFailedParams (ErrError "offline") false None None)];
     EvCallback 32
       [PFailed (mkFailedParams (ErrError "offline") false None None)];
     EvCallback 33 [PRequest (view mixed_callbacks_world)];
     EvCallback 34 [PRequest (view mixed_callbacks_world)]].
Proof. reflexivity. Qed.

(** ** The three ways out of [passthrough] *)


Lemma failures_route_all fp w fp' :
  fp' ∈ failures (failure_route fp w) → fp' = fp.
Proof.
  rewrite failures_failure_route. intros Hin.
  apply elem_of_cons in Hin as [->|Hin]; [reflexivity|].
  apply elem_of_replicate in Hin as [-> _]. reflexivity.
Qed.

Lemma callback_emit evs w :
  req_callback (request (emit evs w)) = req_callback (request w).
Proof. reflexivity. Qed.

(** [passthrough] ends in one of three ways: a veto of the [before]
    hooks, a veto of the [init] hooks, or a call of [fetch]. *)
Lemma passthrough_ways usp runAll f w :
  ∃ evs,
    trace (passthrough usp runAll f w) = trace w ++ evs
    ∧ ((fetches evs = []
        ∧ (∀ fp, fp ∈ failures evs ↔ fp = veto_params before None)
        ∧ store (passthrough usp runAll f w) = store w
        ∧ req_request (request (passthrough usp runAll f w))
          = req_request (request w))
       ∨ (fetches evs = []
          ∧ (∀ fp, fp ∈ failures evs ↔ fp = veto_params init None)
          ∧ store (passthrough usp runAll f w) = resolved_store f w
          ∧ req_request (request (passthrough usp runAll f w))
            = Some (built usp f w))
       ∨ (fetches evs = [built usp f w]
          ∧ failures evs = []
          ∧ store (passthrough usp runAll f w) = resolved_store f w
          ∧ req_request (request (passthrough usp runAll f w))
            = Some (built usp f w)
          ∧ req_callback (request (passthrough usp runAll f w))
            = req_callback (request w))).
Proof.
  rewrite passthrough_eq. cbn zeta.
  rewrite consumed_keys_deleted, !addQuery_store.
  fold (resolved_store f w). fold (built usp f w).
  set (run := runHooks runAll (hooks_before _) _).
  destruct run.1 eqn:Hb.
  - set (run' := runHooks runAll (hooks_init _) _).
    destruct run'.1 eqn:Hi.
    + exists (run.2 ++ run'.2 ++ [EvFetch (built usp f w)]). split.
      * cbn [emit trace set_request set_store]. rewrite <- !app_assoc.
        reflexivity.
      * right. right. split; [|split; [|split; [|split]]]; try reflexivity.
        -- rewrite !fetches_app. unfold run, run'.
           rewrite !fetches_runHooks. reflexivity.
        -- rewrite !failures_app. unfold run, run'.
           rewrite !failures_runHooks. reflexivity.
    + eexists. split.
      * rewrite trace_hookFailed.
        cbn [emit trace set_request set_store]. rewrite <- !app_assoc.
        reflexivity.
      * right. left.
        destruct (same_frame_hookFailed init None
                    (emit run'.2
                       (set_request
                          (set_built (built usp f w) (request (emit run.2 w)))
                          (set_store (resolved_store f w) (emit run.2 w)))))
          as (-> & _ & _ & _ & _ & _ & _ & _ & ->).
        split; [|split; [|split; reflexivity]].
        -- rewrite !fetches_app, fetches_failure_route. unfold run, run'.
           rewrite !fetches_runHooks. reflexivity.
        -- intros fp. rewrite !failures_app. unfold run, run'.
           rewrite !failures_runHooks. cbn [app]. split.
           ++ apply failures_route_all.
           ++ intros ->. rewrite failures_failure_route. left.
  - eexists. split.
    + rewrite trace_hookFailed. cbn [emit trace]. rewrite <- !app_assoc.
      reflexivity.
    + left.
      destruct (same_frame_hookFailed before None (emit run.2 w))
        as (-> & _ & _ & _ & _ & _ & _ & _ & ->).
      split; [|split; [|split; reflexivity]].
      * rewrite !fetches_app, fetches_failure_route. unfold run.
        rewrite fetches_runHooks. reflexivity.
      * intros fp. rewrite !failures_app. unfold run.
        rewrite failures_runHooks. cbn [app]. split.
        -- apply failures_route_all.
        -- intros ->. rewrite failures_failure_route. left.
Qed.



(** X11. [passthrough] writes to the payload object and to nothing else
    of the store: every other object, an object valued [config.query]
    among them, is left as it was. The payload only loses keys, and a
    key it loses is the name of a template [:name] of the URL. *)
Theorem passthrough_touches_payload_only
    (usp_toString : list (string * string) → string) (runAll : bool)
    (f : Frame) (w : World) :
  let w' := passthrough usp_toString runAll f w in
  let l := req_data (request w) in
  (∀ l', l' ≠ l → store w' !! l' = store w !! l')
  ∧ (∀ k v, obj_at (store w') l !! k = Some v →
            obj_at (store w) l !! k = Some v)
  ∧ (∀ k, is_Some (obj_at (store w) l !! k) →
          obj_at (store w') l !! k = None →
          String ":" k ∈ split_on "/"%char (fr_url f)).
Proof.
  cbn zeta.
  destruct (passthrough_ways usp_toString runAll f w) as (evs & _ & Hways).
  assert (Hst : store (passthrough usp_toString runAll f w) = store w
                ∨ store (passthrough usp_toString runAll f w)
                  = resolved_store f w).
  { destruct Hways as [(_ & _ & H & _)|[(_ & _ & H & _)|(_ & _ & H & _)]];
      auto. }
  destruct Hst as [->| ->].
  - split; [reflexivity|]. split; [auto|].
    intros k [v Hv] Hn. congruence.
  - unfold resolved_store.
    destruct (transformPathParams_spec (fr_url f)
                (obj_at (store w) (req_data (request w))))
      as (q' & Heq & Hafter).
    rewrite Heq. cbn [snd].
    assert (Hl : obj_at (<[req_data (request w) := q']> (store w))
                        (req_data (request w)) = q').
    { unfold obj_at. rewrite lookup_insert_eq. reflexivity. }
    rewrite Hl. split; [|split].
    + intros l' Hl'. apply lookup_insert_ne. congruence.
    + intros k v. rewrite (Hafter k).
      destruct (_ && _); [discriminate|auto].
    + intros k [v Hv]. rewrite (Hafter k).
      destruct (bool_decide (String ":" k ∈ split_on "/"%char (fr_url f)))
        eqn:Hin.
      * intros _. apply bool_decide_eq_true in Hin. exact Hin.
      * cbn [andb]. congruence.
Qed.

(** X12. The artifacts of every way out of the pipeline. [passthrough]
    delivers only the artifact of a [before] or of an [init] veto; the
    [then] handler only the artifact of a [success] veto (with the
    response), of a [failed] veto (without it) or of a rejected status
    (with it); the [catch] handler only the artifact of a [failed] veto
    or of the error. Hence in every artifact [intercept] is [true]
    exactly when [hook] is set, a veto carries the error
    ["Request interrupted by <hook>"], and a response is carried only by
    a [success] veto or by an artifact without hook. *)
Theorem failure_artifacts_classified
    (usp_toString : list (string * string) → string)
    (JSON_parse : string → option Json) (handleResponse : Response → string)
    (responseCode : Z → bool) (runAll : bool) (f : Frame) (w : World) :
  (∀ fp, fp ∈ failures (since w (passthrough usp_toString runAll f w)) →
         (fp = veto_params before None ∨ fp = veto_params init None)
         ∧ artifact_shape fp)
  ∧ (∀ response fp,
       fp ∈ failures (since w (onFulfilled JSON_parse handleResponse
                                 responseCode runAll f response w)) →
       let rr := requestReturn JSON_parse f response
                               (handleResponse response) in
       (fp = veto_params success (Some rr)
        ∨ fp = veto_params failed None
        ∨ fp = mkFailedParams (ErrStatus (resp_status response)) false None
                              (Some rr))
       ∧ artifact_shape fp)
  ∧ (∀ error fp,
       fp ∈ failures (since w (onRejected runAll f error w)) →
       (fp = veto_params failed None
        ∨ fp = mkFailedParams (ErrError error) false None None)
       ∧ artifact_shape fp).
Proof.
  assert (Hveto : ∀ hook r, (r = None ∨ hook = success) →
                            artifact_shape (veto_params hook r)).
  { intros hook r Hr. split; [|split].
    - cbn. split; eauto.
    - cbn. intros h [= ->]. reflexivity.
    - cbn. intros [rr Hrr]. destruct Hr as [->| ->]; [discriminate|auto]. }
  assert (Hplain : ∀ e r, artifact_shape (mkFailedParams e false None r)).
  { intros e r. split; [|split]; cbn.
    - split; [discriminate|]. intros [? ?]. discriminate.
    - intros h. discriminate.
    - auto. }
  split; [|split].
  - intros fp Hfp.
    destruct (passthrough_ways usp_toString runAll f w) as (evs & Htr & Hways).
    rewrite (since_app _ _ _ Htr) in Hfp.
    destruct Hways as [(_ & Hf & _)|[(_ & Hf & _)|(_ & Hf & _)]].
    + apply Hf in Hfp as ->. split; [auto|]. apply Hveto. auto.
    + apply Hf in Hfp as ->. split; [auto|]. apply Hveto. auto.
    + rewrite Hf in Hfp. inversion Hfp.
  - intros response fp Hfp. cbn zeta.
    rewrite (since_app _ _ _ (trace_onFulfilled _ _ _ _ _ _ _)) in Hfp.
    cbn zeta in Hfp. destruct (responseCode _).
    + rewrite failures_app, failures_runHooks in Hfp. cbn [app] in Hfp.
      destruct (runHooks _ _ _).1.
      * rewrite failures_app, failures_request_calls, app_nil_r in Hfp.
        exfalso. revert Hfp. clear.
        induction (List.filter _ _) as [|c l IH]; [inversion 1|exact IH].
      * apply failures_route_all in Hfp as ->. split; [auto|].
        apply Hveto. auto.
    + rewrite failures_app, failures_runHooks in Hfp. cbn [app] in Hfp.
      apply failures_route_all in Hfp as ->.
      destruct (runHooks _ _ _).1.
      * split; [auto|]. apply Hplain.
      * split; [auto|]. apply Hveto. auto.
  - intros error fp Hfp.
    rewrite (since_app _ _ _ (trace_onRejected _ _ _ _)) in Hfp.
    cbn zeta in Hfp.
    rewrite failures_app, failures_runHooks in Hfp. cbn [app] in Hfp.
    destruct (runHooks _ _ _).1.
    + assert (fp = mkFailedParams (ErrError error) false None None) as ->.
      { cbn [failures] in Hfp.
        apply elem_of_cons in Hfp as [->|Hfp]; [reflexivity|].
        rewrite failures_app, failures_failed_calls,
          failures_request_calls, app_nil_r in Hfp.
        apply elem_of_replicate in Hfp as [-> _]. reflexivity. }
      split; [auto|]. apply Hplain.
    + apply failures_route_all in Hfp as ->. split; [auto|].
      apply Hveto. auto.
Qed.

(** ** An immediate send *)

Lemma sendRequest_immediate usp runAll m url w :
  wait_set (cfg_wait (req_config (request w))) = false →
  sendRequest usp runAll m url w
  = passthrough usp runAll (frame_of m url (request w)) w.
Proof. intros H. unfold sendRequest. rewrite H. reflexivity. Qed.

Lemma isBodyAllowed_false_iff m :
  isBodyAllowed m = false ↔ m = GET ∨ m = HEAD ∨ m = OPTIONS.
Proof.
  destruct m; split; intros H;
    try (vm_compute in H; discriminate H);
    try (vm_compute; reflexivity);
    try tauto;
    destruct H as [H|[H|H]]; discriminate H.
Qed.

Lemma obj_at_resolved f w :
  obj_at (resolved_store f w) (req_data (request w))
  = (transformPathParams (fr_url f)
       (obj_at (store w) (req_data (request w)))).2.
Proof. unfold resolved_store, obj_at at 1. rewrite lookup_insert_eq. reflexivity. Qed.

(** X13. An immediate send (no [wait]) hands at most one request to
    [fetch], of the method it was called with. The request carries a
    body exactly when the method is none of [GET], [HEAD] and [OPTIONS],
    and the body is then the payload without the keys the path
    consumed; no timer is scheduled. *)
Theorem immediate_send_body_by_method
    (usp_toString : list (string * string) → string) (runAll : bool)
    (m : RequestMethod) (url : string) (w : World) :
  wait_set (cfg_wait (req_config (request w))) = false →
  let w' := sendRequest usp_toString runAll m url w in
  let payload := obj_at (store w) (req_data (request w)) in
  (length (fetches (since w w')) ≤ 1)%nat
  ∧ (∀ rq, rq ∈ fetches (since w w') →
           rq_method rq = m
           ∧ rq_body rq
             = if isBodyAllowed m
               then Some (transformPathParams url payload).2
               else None)
  ∧ (isBodyAllowed m = false ↔ m = GET ∨ m = HEAD ∨ m = OPTIONS)
  ∧ timers w' = timers w.
Proof.
  intros Hw. cbn zeta. rewrite (sendRequest_immediate _ _ _ _ _ Hw).
  set (f := frame_of m url (request w)).
  destruct (passthrough_ways usp_toString runAll f w) as (evs & Htr & Hways).
  rewrite (since_app _ _ _ Htr).
  assert (Hcases : fetches evs = [] ∨ fetches evs = [built usp_toString f w]).
  { destruct Hways as [(H & _)|[(H & _)|(H & _)]]; auto. }
  split; [|split; [|split]].
  - destruct Hcases as [-> | ->]; cbn; lia.
  - intros rq Hrq. destruct Hcases as [H|H]; rewrite H in Hrq.
    + inversion Hrq.
    + apply list_elem_of_singleton in Hrq as ->.
      split; [reflexivity|]. cbn [built rq_body f frame_of fr_body].
      destruct (isBodyAllowed m); [|reflexivity].
      rewrite obj_at_resolved. reflexivity.
  - apply isBodyAllowed_false_iff.
  - apply frame_passthrough.
Qed.

(** The theorem at a [PUT] of [/users/:id]: the body is the payload
    without [id]. *)
Lemma immediate_send_body_by_method_witness :
  (length (fetches (since users_world
                      (sendRequest plain_toString false PUT "/users/:id"
                                   users_world))) ≤ 1)%nat
  ∧ timers (sendRequest plain_toString false PUT "/users/:id" users_world)
    = timers users_world.
Proof.
  pose proof (immediate_send_body_by_method plain_toString false
                PUT "/users/:id" users_world eq_refl) as H.
  cbn zeta in H. destruct H as (H1 & _ & _ & H4).
  split; [exact H1|exact H4].
Defined.

Example put_users_7 :
  fetches (since users_world
             (sendRequest plain_toString false PUT "/users/:id" users_world))
  = [mkRequest "/users/7" PUT [] (Some {[ "active" := JBool true ]})].
Proof. vm_compute. reflexivity. Qed.

(** ** The URL of a request without body *)






(** ** Resending *)





Example resend_fetches_the_template :
  fetches
    (since (sendRequest plain_toString false PUT "/users/:id" users_world)
       (resend plain_toString false
          (requestReturn read_json (frame_of PUT "/users/:id"
                                      (request users_world))
                         ok_response "[1, 2]")
          (sendRequest plain_toString false PUT "/users/:id" users_world)))
  = [mkRequest "/users/:id" PUT [] (Some {[ "active" := JBool true ]})].
Proof. vm_compute. reflexivity. Qed.

(** ** Sends that are not coalesced *)








Example three_calls_apart :
  fetches (since debounced_world
             (advance plain_toString false 150
                (send_all plain_toString false [call1; late2; late3]
                          debounced_world)))
  = [mkRequest "/items" POST [] (Some {[ "n" := JNum 1 ]});
     mkRequest "/items" POST [] (Some {[ "n" := JNum 2 ]});
     mkRequest "/items" POST [] (Some {[ "n" := JNum 3 ]})].
Proof. vm_compute. reflexivity. Qed.
